(** * video-to-audio: the job polling hook and its API client

    A shallow embedding of the front-end's [useExtract] hook
    (hooks/useExtract.ts, with and without persistence) and of the API
    client (services/api.ts), followed by the properties of the job
    life cycle: polling, resumption from [localStorage], submission,
    reset and error reporting. *)

From Stdlib Require Import Ascii.
From stdpp Require Import base option strings gmap list pretty.

Set Warnings "-register-all".

Open Scope string_scope.
Open Scope Z_scope.
Open Scope list_scope.

(* ===================================================================== *)
(** * JavaScript values                                                   *)
(* ===================================================================== *)

Module Js.

(** An [Error] object. [status] is only set by [ApiError]. *)
Record JsError := mkError {
  name : string;
  message : string;
  status : option Z
}.

(** [new Error(message)] *)
Definition new_Error (msg : string) : JsError :=
  {| name := "Error"; message := msg; status := None |}.

(** What a [catch] clause can receive: an [Error], or any other value. *)
Inductive Thrown :=
  | ThrowError (e : JsError)
  | ThrowValue.

(** How a promise settles. *)
Inductive Settled (T : Type) :=
  | Fulfilled (v : T)
  | Rejected (e : Thrown).
Arguments Fulfilled {T} v.
Arguments Rejected {T} e.

(** Reading a property of [null] (message as V8 words it). *)
Definition TypeError_null (prop : string) : JsError :=
  {| name := "TypeError";
     message := "Cannot read properties of null (reading '" +:+ prop +:+ "')";
     status := None |}.

(** [err instanceof Error ? err.message : fallback] *)
Definition message_or (err : Thrown) (fallback : string) : string :=
  match err with
  | ThrowError e => message e
  | ThrowValue => fallback
  end.

(** [err instanceof Error ? err : new Error(message)] *)
Definition error_or (err : Thrown) (msg : string) : JsError :=
  match err with
  | ThrowError e => e
  | ThrowValue => new_Error msg
  end.

(** Truthiness of a [string | null | undefined]: the empty string is falsy. *)
Definition truthy_str (o : option string) : bool :=
  match o with
  | Some s => negb (String.eqb s "")
  | None => false
  end.

(** [o || fallback] at type string *)
Definition str_or (o : option string) (fallback : string) : string :=
  match o with
  | Some s => if String.eqb s "" then fallback else s
  | None => fallback
  end.

(** A parsed JSON document. Numbers are kept to the integers, and stand
    for those a double holds exactly (up to 2^53 either way), which
    [String] prints digit for digit. *)
Inductive Json :=
  | JNull
  | JBool (b : bool)
  | JNum (n : Z)
  | JStr (s : string)
  | JArr (items : list Json)
  | JObj (fields : list (string * Json)).

(** [JSON.parse] keeps the last of several members with one key. *)
Fixpoint member (k : string) (fields : list (string * Json)) : option Json :=
  match fields with
  | [] => None
  | (k', v) :: rest =>
      match member k rest with
      | Some w => Some w
      | None => if String.eqb k k' then Some v else None
      end
  end.

(** [v.detail]: throws on [null], [undefined] on anything but an object. *)
Definition detail_of (v : Json) : JsError + option Json :=
  match v with
  | JNull => inl (TypeError_null "detail")
  | JObj fields => inr (member "detail" fields)
  | _ => inr None
  end.

(** Truthiness of a JSON value or [undefined]. *)
Definition truthy (o : option Json) : bool :=
  match o with
  | None | Some JNull => false
  | Some (JBool b) => b
  | Some (JNum n) => negb (Z.eqb n 0)
  | Some (JStr s) => negb (String.eqb s "")
  | Some (JArr _) | Some (JObj _) => true
  end.

(** [String(v)], as [new Error(v)] applies it to its argument. *)
Fixpoint to_string (v : Json) : string :=
  match v with
  | JNull => "null"
  | JBool true => "true"
  | JBool false => "false"
  | JNum n => pretty n
  | JStr s => s
  | JArr items =>
      String.concat ","
        (List.map (fun x => match x with JNull => "" | _ => to_string x end) items)
  | JObj _ => "[object Object]"
  end.

(** [new Error(o || fallback)] *)
Definition error_of_or (o : option Json) (fallback : string) : JsError :=
  new_Error (if truthy o then from_option to_string fallback o else fallback).

End Js.

(* ===================================================================== *)
(** * Shared types (types/index.ts)                                       *)
(* ===================================================================== *)

Inductive AudioFormat := mp3 | m4a | wav | opus.
Inductive AudioQuality := q128 | q192 | q256 | q320.

Inductive JobStatus :=
  | pending | processing | downloading | extracting | uploading
  | completed | failed.

Module VideoInfo.
Record t := mk {
  id : string;
  title : string;
  duration_seconds : Z;
  duration_formatted : string;
  thumbnail : option string;
  source : string;
  channel : option string
}.
End VideoInfo.

Module ExtractResult.
Record t := mk {
  success : bool;
  audio_url : option string;
  filename : option string;
  file_size : option string;
  format : option string;
  quality : option string;
  error : option string
}.
End ExtractResult.

Module JobResponse.
Record t := mk {
  job_id : string;
  status : JobStatus;
  progress : Z;
  message : string;
  created_at : string;
  video_info : option VideoInfo.t;
  result : option ExtractResult.t
}.
End JobResponse.

(* ===================================================================== *)
(** * API client (services/api.ts)                                        *)
(* ===================================================================== *)

Module Api.
Import Js.

(** What the client reads of a [Response]: [ok], [status] and the promise
    returned by [response.json()]. *)
Record Response := mkResponse {
  ok : bool;
  status : Z;
  json : Settled Json
}.

(** [fetch] rejects on a transport failure and resolves with a response
    otherwise, whatever its status. *)
Inductive Fetched :=
  | NetworkFailure (e : JsError)
  | Responded (response : Response).

(** [response.json().catch(() => ({ detail: 'Error desconocido' }))] *)
Definition json_or_unknown (response : Response) : Json :=
  match json response with
  | Fulfilled v => v
  | Rejected _ => JObj [("detail", JStr "Error desconocido")]
  end.

(** [request<T>(endpoint, options)], from the point where [fetch] settles. *)
Definition request (fetched : Fetched) : Settled Json :=
  match fetched with
  | NetworkFailure e => Rejected (ThrowError e)
  | Responded response =>
      if negb (ok response) then
        let error := json_or_unknown response in
        match detail_of error with
        | inl type_error => Rejected (ThrowError type_error)
        | inr detail =>
            Rejected (ThrowError
              (error_of_or detail ("HTTP " +:+ pretty (status response))))
        end
      else json response
  end.

(** [class ApiError extends Error] *)
Definition new_ApiError (st : Z) (msg : string) : JsError :=
  {| name := "ApiError"; message := msg; Js.status := Some st |}.

(** [handleResponse<T>(response)] of the earlier client. *)
Definition handleResponse (response : Response) : Settled Json :=
  if negb (ok response) then
    let error := json_or_unknown response in
    match detail_of error with
    | inl type_error => Rejected (ThrowError type_error)
    | inr detail =>
        Rejected (ThrowError
          (new_ApiError (status response)
             (message (error_of_or detail "Error en la solicitud"))))
    end
  else json response.

End Api.

(* ===================================================================== *)
(** * The hook with persistence (hooks/useExtract.ts)                     *)
(* ===================================================================== *)

Module useExtract.
Import Js.

Definition STORAGE_KEY : string := "video-to-audio-current-job".

(** [UseExtractOptions]. A callback is only ever called through [?.], so
    all the hook reads of it is whether the caller supplied it. *)
Record UseExtractOptions := mkOptions {
  pollingInterval : option Z;
  onComplete : bool;
  onError : bool
}.

(** [const { pollingInterval = 1000, ... } = options] *)
Definition interval (options : UseExtractOptions) : Z :=
  default 1000 (pollingInterval options).

(** An [async] body suspended at its [await], or the promise chain of the
    mount effect waiting for [api.getJob]. *)
Inductive Awaiting :=
  | AwaitPoll (jobId : string)
  | AwaitResume (savedJobId : string)
  | AwaitExtract
  | AwaitInfo.

(** What the hook does to the world outside it, in the order it does it. *)
Inductive Event :=
  | GetJob (jobId : string)
  | StartExtraction (url : string) (format : AudioFormat) (quality : AudioQuality)
  | GetVideoInfo (url : string)
  | SetInterval (timer : positive) (ms : Z)
  | ClearInterval (timer : positive)
  | OnComplete (job : JobResponse.t)
  | OnError (e : JsError)
  | ConsoleError (e : Thrown).

(** The [useState] cells, the two refs, and the part of the browser the
    hook lives in: [localStorage], the live interval timers with their
    periods, the promises still pending, and the trace of events. *)
Record State := mkState {
  isLoading : bool;
  isPolling : bool;
  job : option JobResponse.t;
  videoInfo : option VideoInfo.t;
  error : option string;
  pollingRef : option positive;
  jobIdRef : option string;
  localStorage : gmap string string;
  timers : gmap positive Z;
  nextTimer : positive;
  awaiting : list Awaiting;
  trace : list Event
}.

(** The hook at its first render, over the storage the page finds. *)
Definition init (storage : gmap string string) : State :=
  {| isLoading := false; isPolling := false; job := None; videoInfo := None;
     error := None; pollingRef := None; jobIdRef := None;
     localStorage := storage; timers := ∅; nextTimer := 1%positive;
     awaiting := []; trace := [] |}.

(** ** A state monad for the hook's statements *)

Definition Hook (A : Type) : Type := State → A * State.

#[global] Instance Hook_ret : MRet Hook := λ A a s, (a, s).
#[global] Instance Hook_bind : MBind Hook :=
  λ A B f m s, let '(a, s') := m s in f a s'.

Definition exec {A} (m : Hook A) (s : State) : State := (m s).2.
Definition eval {A} (m : Hook A) (s : State) : A := (m s).1.

Definition skip : Hook unit := mret ().
Definition read {A} (field : State → A) : Hook A := λ s, (field s, s).
Definition modify (f : State → State) : Hook unit := λ s, ((), f s).

Definition setIsLoading (v : bool) : Hook unit := modify (λ s,
  {| isLoading := v; isPolling := isPolling s; job := job s;
     videoInfo := videoInfo s; error := error s; pollingRef := pollingRef s;
     jobIdRef := jobIdRef s; localStorage := localStorage s;
     timers := timers s; nextTimer := nextTimer s; awaiting := awaiting s;
     trace := trace s |}).

Definition setIsPolling (v : bool) : Hook unit := modify (λ s,
  {| isLoading := isLoading s; isPolling := v; job := job s;
     videoInfo := videoInfo s; error := error s; pollingRef := pollingRef s;
     jobIdRef := jobIdRef s; localStorage := localStorage s;
     timers := timers s; nextTimer := nextTimer s; awaiting := awaiting s;
     trace := trace s |}).

Definition setJob (v : option JobResponse.t) : Hook unit := modify (λ s,
  {| isLoading := isLoading s; isPolling := isPolling s; job := v;
     videoInfo := videoInfo s; error := error s; pollingRef := pollingRef s;
     jobIdRef := jobIdRef s; localStorage := localStorage s;
     timers := timers s; nextTimer := nextTimer s; awaiting := awaiting s;
     trace := trace s |}).

Definition setVideoInfo (v : option VideoInfo.t) : Hook unit := modify (λ s,
  {| isLoading := isLoading s; isPolling := isPolling s; job := job s;
     videoInfo := v; error := error s; pollingRef := pollingRef s;
     jobIdRef := jobIdRef s; localStorage := localStorage s;
     timers := timers s; nextTimer := nextTimer s; awaiting := awaiting s;
     trace := trace s |}).

Definition setError (v : option string) : Hook unit := modify (λ s,
  {| isLoading := isLoading s; isPolling := isPolling s; job := job s;
     videoInfo := videoInfo s; error := v; pollingRef := pollingRef s;
     jobIdRef := jobIdRef s; localStorage := localStorage s;
     timers := timers s; nextTimer := nextTimer s; awaiting := awaiting s;
     trace := trace s |}).

(** [pollingRef.current = v] *)
Definition set_pollingRef (v : option positive) : Hook unit := modify (λ s,
  {| isLoading := isLoading s; isPolling := isPolling s; job := job s;
     videoInfo := videoInfo s; error := error s; pollingRef := v;
     jobIdRef := jobIdRef s; localStorage := localStorage s;
     timers := timers s; nextTimer := nextTimer s; awaiting := awaiting s;
     trace := trace s |}).

(** [jobIdRef.current = v] *)
Definition set_jobIdRef (v : option string) : Hook unit := modify (λ s,
  {| isLoading := isLoading s; isPolling := isPolling s; job := job s;
     videoInfo := videoInfo s; error := error s; pollingRef := pollingRef s;
     jobIdRef := v; localStorage := localStorage s;
     timers := timers s; nextTimer := nextTimer s; awaiting := awaiting s;
     trace := trace s |}).

Definition with_localStorage (f : gmap string string → gmap string string)
    : Hook unit := modify (λ s,
  {| isLoading := isLoading s; isPolling := isPolling s; job := job s;
     videoInfo := videoInfo s; error := error s; pollingRef := pollingRef s;
     jobIdRef := jobIdRef s; localStorage := f (localStorage s);
     timers := timers s; nextTimer := nextTimer s; awaiting := awaiting s;
     trace := trace s |}).

Definition with_timers (f : gmap positive Z → gmap positive Z)
    (next : positive → positive) : Hook unit := modify (λ s,
  {| isLoading := isLoading s; isPolling := isPolling s; job := job s;
     videoInfo := videoInfo s; error := error s; pollingRef := pollingRef s;
     jobIdRef := jobIdRef s; localStorage := localStorage s;
     timers := f (timers s); nextTimer := next (nextTimer s);
     awaiting := awaiting s; trace := trace s |}).

Definition with_awaiting (f : list Awaiting → list Awaiting) : Hook unit :=
  modify (λ s,
  {| isLoading := isLoading s; isPolling := isPolling s; job := job s;
     videoInfo := videoInfo s; error := error s; pollingRef := pollingRef s;
     jobIdRef := jobIdRef s; localStorage := localStorage s;
     timers := timers s; nextTimer := nextTimer s;
     awaiting := f (awaiting s); trace := trace s |}).

(** Append one event to the trace. *)
Definition emit (e : Event) : Hook unit := modify (λ s,
  {| isLoading := isLoading s; isPolling := isPolling s; job := job s;
     videoInfo := videoInfo s; error := error s; pollingRef := pollingRef s;
     jobIdRef := jobIdRef s; localStorage := localStorage s;
     timers := timers s; nextTimer := nextTimer s; awaiting := awaiting s;
     trace := trace s ++ [e] |}).

(** ** The browser *)

(** [setInterval(handler, ms)]: a timer under a fresh identifier. Every
    interval of this hook runs the same handler, [interval_handler]. *)
Definition setInterval (ms : Z) : Hook positive :=
  t ← read nextTimer;
  with_timers <[t := ms]> Pos.succ;;
  emit (SetInterval t ms);;
  mret t.

(** [clearInterval(t)]: no effect on a timer that is not live. *)
Definition clearInterval (t : positive) : Hook unit :=
  with_timers (delete t) id;;
  emit (ClearInterval t).

(** Leave the running function at an [await]. *)
Definition suspend (a : Awaiting) : Hook unit := with_awaiting (λ l, l ++ [a]).

(** [callback?.(arg)] *)
Definition call_optional (supplied : bool) (e : Event) : Hook unit :=
  if supplied then emit e else skip.

Definition console_error (e : Thrown) : Hook unit := emit (ConsoleError e).

(** ** The hook's functions *)

Definition saveJobId (jobId : string) : Hook unit :=
  with_localStorage <[STORAGE_KEY := jobId]>.

Definition clearJobId : Hook unit :=
  with_localStorage (delete STORAGE_KEY).

Definition getSavedJobId : Hook (option string) :=
  storage ← read localStorage; mret (storage !! STORAGE_KEY).

(** [if (pollingRef.current) { clearInterval(pollingRef.current);
    pollingRef.current = null; }] *)
Definition clear_polling : Hook unit :=
  current ← read pollingRef;
  match current with
  | Some t => clearInterval t;; set_pollingRef None
  | None => skip
  end.

(** [pollJob(jobId)] up to [await api.getJob(jobId)]. *)
Definition pollJob (jobId : string) : Hook unit :=
  emit (GetJob jobId);; suspend (AwaitPoll jobId).

(** [updatedJob.result?.error] *)
Definition result_error (j : JobResponse.t) : option string :=
  JobResponse.result j ≫= ExtractResult.error.

(** [pollJob] from the point where [api.getJob] settles. A [null] body
    passes [setJob] and throws at [updatedJob.video_info], inside the [try]. *)
Definition pollJob_settled (options : UseExtractOptions)
    (settled : Settled (option JobResponse.t)) : Hook unit :=
  match settled with
  | Fulfilled (Some updatedJob) =>
      setJob (Some updatedJob);;
      match JobResponse.video_info updatedJob with
      | Some info => setVideoInfo (Some info)
      | None => skip
      end;;
      match JobResponse.status updatedJob with
      | completed =>
          setIsPolling false;;
          clear_polling;;
          clearJobId;;
          call_optional (onComplete options) (OnComplete updatedJob)
      | failed =>
          setIsPolling false;;
          setError (Some (str_or (result_error updatedJob) "Error en la extracción"));;
          clear_polling;;
          clearJobId;;
          call_optional (onError options)
            (OnError (new_Error (str_or (result_error updatedJob) "Error")))
      | _ => skip
      end
  | Fulfilled None =>
      setJob None;;
      console_error (ThrowError (TypeError_null "video_info"))
  | Rejected err => console_error err
  end.

(** The handler of the interval:
    [if (jobIdRef.current) { pollJob(jobIdRef.current); }] *)
Definition interval_handler : Hook unit :=
  current ← read jobIdRef;
  match current with
  | Some jobId => if truthy_str (Some jobId) then pollJob jobId else skip
  | None => skip
  end.

Definition startPolling (options : UseExtractOptions) (jobId : string)
    : Hook unit :=
  set_jobIdRef (Some jobId);;
  setIsPolling true;;
  setIsLoading false;;
  pollJob jobId;;
  t ← setInterval (interval options);
  set_pollingRef (Some t).

#[global] Instance JobStatus_eq_dec : EqDecision JobStatus.
Proof. solve_decision. Defined.

(** [['pending', 'processing', 'downloading', 'extracting',
    'uploading'].includes(status)] *)
Definition in_progress (status : JobStatus) : bool :=
  bool_decide (status ∈ [pending; processing; downloading; extracting; uploading]).

(** The mount effect up to [api.getJob(savedJobId)]. *)
Definition mount : Hook unit :=
  savedJobId ← getSavedJobId;
  match savedJobId with
  | Some jobId =>
      if truthy_str (Some jobId)
      then emit (GetJob jobId);; suspend (AwaitResume jobId)
      else skip
  | None => skip
  end.

(** The [.then(...)] and [.catch(...)] of the mount effect. *)
Definition mount_settled (options : UseExtractOptions) (savedJobId : string)
    (settled : Settled (option JobResponse.t)) : Hook unit :=
  match settled with
  | Fulfilled (Some existingJob) =>
      setJob (Some existingJob);;
      match JobResponse.video_info existingJob with
      | Some info => setVideoInfo (Some info)
      | None => skip
      end;;
      if in_progress (JobResponse.status existingJob)
      then startPolling options savedJobId
      else
        clearJobId;;
        match JobResponse.status existingJob with
        | completed => call_optional (onComplete options) (OnComplete existingJob)
        | _ => skip
        end
  | Fulfilled None => clearJobId
  | Rejected _ => clearJobId
  end.

(** The clean-up of the mount effect: the timer is cleared, the ref kept. *)
Definition unmount : Hook unit :=
  current ← read pollingRef;
  match current with
  | Some t => clearInterval t
  | None => skip
  end.

(** [fetchInfo(url)] up to [await api.getVideoInfo(url)]. *)
Definition fetchInfo (url : string) : Hook unit :=
  setIsLoading true;;
  setError None;;
  setVideoInfo None;;
  emit (GetVideoInfo url);; suspend AwaitInfo.

Definition fetchInfo_settled (settled : Settled (option VideoInfo.t))
    : Hook (option VideoInfo.t) :=
  match settled with
  | Fulfilled info =>
      setVideoInfo info;;
      setIsLoading false;;
      mret info
  | Rejected err =>
      setError (Some (message_or err "Error al obtener información"));;
      setIsLoading false;;
      mret None
  end.

(** [extract(url, format, quality)] up to [await api.startExtraction(...)]. *)
Definition extract (url : string) (format : AudioFormat) (quality : AudioQuality)
    : Hook unit :=
  clear_polling;;
  setIsLoading true;;
  setIsPolling false;;
  setError None;;
  setJob None;;
  emit (StartExtraction url format quality);; suspend AwaitExtract.

(** The [catch] clause of [extract]. *)
Definition extract_catch (options : UseExtractOptions) (err : Thrown)
    : Hook (option JobResponse.t) :=
  let message := message_or err "Error al iniciar extracción" in
  setError (Some message);;
  setIsLoading false;;
  call_optional (onError options) (OnError (error_or err message));;
  mret None.

(** [extract] from the point where [api.startExtraction] settles; the
    value is what the promise returned by [extract] resolves to. *)
Definition extract_settled (options : UseExtractOptions)
    (settled : Settled (option JobResponse.t)) : Hook (option JobResponse.t) :=
  match settled with
  | Fulfilled (Some newJob) =>
      setJob (Some newJob);;
      saveJobId (JobResponse.job_id newJob);;
      startPolling options (JobResponse.job_id newJob);;
      mret (Some newJob)
  | Fulfilled None =>
      setJob None;;
      extract_catch options (ThrowError (TypeError_null "job_id"))
  | Rejected err => extract_catch options err
  end.

Definition reset : Hook unit :=
  clear_polling;;
  clearJobId;;
  setIsLoading false;;
  setIsPolling false;;
  setJob None;;
  setVideoInfo None;;
  setError None;;
  set_jobIdRef None.

(** ** The event loop *)

(** What can happen to a mounted hook: the caller invokes one of its
    actions, a live interval fires, or one of the pending requests
    settles. Everything runs to its next [await] before the next input. *)
Inductive Input :=
  | Mount
  | Unmount
  | FetchInfo (url : string)
  | Extract (url : string) (format : AudioFormat) (quality : AudioQuality)
  | Reset
  | Tick (timer : positive)
  | SettleJob (i : nat) (settled : Settled (option JobResponse.t))
  | SettleInfo (i : nat) (settled : Settled (option VideoInfo.t)).

Definition resume_awaiting (options : UseExtractOptions) (a : Awaiting)
    (settled : Settled (option JobResponse.t)) : Hook unit :=
  match a with
  | AwaitPoll _ => pollJob_settled options settled
  | AwaitResume savedJobId => mount_settled options savedJobId settled
  | AwaitExtract => extract_settled options settled;; skip
  | AwaitInfo => skip
  end.

Definition step (options : UseExtractOptions) (s : State) (input : Input)
    : State :=
  match input with
  | Mount => exec mount s
  | Unmount => exec unmount s
  | FetchInfo url => exec (fetchInfo url) s
  | Extract url format quality => exec (extract url format quality) s
  | Reset => exec reset s
  | Tick t =>
      match timers s !! t with
      | Some _ => exec interval_handler s
      | None => s
      end
  | SettleJob i settled =>
      match awaiting s !! i with
      | Some AwaitInfo | None => s
      | Some a =>
          exec (with_awaiting (delete i);; resume_awaiting options a settled) s
      end
  | SettleInfo i settled =>
      match awaiting s !! i with
      | Some AwaitInfo =>
          exec (with_awaiting (delete i);; fetchInfo_settled settled) s
      | _ => s
      end
  end.

Definition run (options : UseExtractOptions) (s : State) (inputs : list Input)
    : State :=
  foldl (step options) s inputs.

(** ** Reading a trace *)

Definition is_GetJob (e : Event) : bool :=
  match e with GetJob _ => true | _ => false end.
Definition is_SetInterval (e : Event) : bool :=
  match e with SetInterval _ _ => true | _ => false end.
Definition is_ClearInterval (e : Event) : bool :=
  match e with ClearInterval _ => true | _ => false end.
Definition is_OnComplete (e : Event) : bool :=
  match e with OnComplete _ => true | _ => false end.
Definition is_OnError (e : Event) : bool :=
  match e with OnError _ => true | _ => false end.
Definition is_callback (e : Event) : bool := is_OnComplete e || is_OnError e.

(** How many events of a kind a trace holds. *)
Definition count (p : Event → bool) (l : list Event) : nat :=
  length (List.filter p l).

Definition terminal (status : JobStatus) : bool :=
  match status with completed | failed => true | _ => false end.

(** The events a run added to the trace it started from. *)
Definition since (before after : State) : list Event :=
  drop (length (trace before)) (trace after).
Arguments since : simpl never.

(** The message [pollJob] builds for [onError]:
    [updatedJob.result?.error || 'Error'] *)
Definition failure_message (j : JobResponse.t) : string :=
  str_or (result_error j) "Error".

(** The callback a terminal poll response asks for. *)
Definition outcome (j : JobResponse.t) : Event :=
  match JobResponse.status j with
  | completed => OnComplete j
  | _ => OnError (new_Error (failure_message j))
  end.

(** The callbacks [pollJob] reaches for a job, given which were supplied. *)
Definition callbacks (options : UseExtractOptions) (j : JobResponse.t)
    : list Event :=
  match JobResponse.status j with
  | completed => if onComplete options then [OnComplete j] else []
  | failed =>
      if onError options then [OnError (new_Error (failure_message j))] else []
  | _ => []
  end.

(** [clearInterval] of the timer the ref holds, if it holds one. *)
Definition cleared (current : option positive) : list Event :=
  match current with Some t => [ClearInterval t] | None => [] end.

Definition without_timer (current : option positive) (live : gmap positive Z)
    : gmap positive Z :=
  match current with Some t => delete t live | None => live end.

(** The inputs of a loop that goes on: its interval [t] fires, and poll
    requests fail or report a status in progress. *)
Definition polls_on (t : positive) (input : Input) : bool :=
  match input with
  | Tick t' => bool_decide (t' = t)
  | SettleJob _ (Rejected _) => true
  | SettleJob _ (Fulfilled (Some j)) => negb (terminal (JobResponse.status j))
  | _ => false
  end.

Definition is_Tick (input : Input) : bool :=
  match input with Tick _ => true | _ => false end.

Definition count_ticks (inputs : list Input) : nat :=
  length (List.filter is_Tick inputs).

(** A pending request whose answer does not start a loop. *)
Definition starts_no_loop (a : Awaiting) : bool :=
  match a with AwaitPoll _ | AwaitInfo => true | _ => false end.

(** What holds of a hook whose loop on [jobId] runs on timer [t] with
    period [ms]. *)
Definition looping (t : positive) (ms : Z) (jobId : string) (s : State) : Prop :=
  timers s !! t = Some ms
  ∧ pollingRef s = Some t
  ∧ jobIdRef s = Some jobId
  ∧ Forall (λ a, starts_no_loop a = true) (awaiting s).

(** How many pending requests may still start a loop. *)
Definition starters (pending : list Awaiting) : nat :=
  length (List.filter (λ a, negb (starts_no_loop a)) pending).

Arguments starters : simpl never.

(** At most one interval is live, the one the ref holds, and none while
    a request that may start a loop is pending. *)
Definition calm (s : State) : Prop :=
  (∀ t, is_Some (timers s !! t) → pollingRef s = Some t)
  ∧ (starters (awaiting s) ≤ 1)%nat
  ∧ (starters (awaiting s) = 1%nat → timers s = ∅).

(** The caller does not submit, and the page does not mount the hook,
    while a request that may start a loop is pending. *)
Definition unhurried (s : State) (input : Input) : Prop :=
  match input with
  | Extract _ _ _ => starters (awaiting s) = 0%nat
  | Mount => starters (awaiting s) = 0%nat ∧ timers s = ∅
  | _ => True
  end.

Fixpoint unhurried_run (options : UseExtractOptions) (s : State)
    (inputs : list Input) : Prop :=
  match inputs with
  | [] => True
  | input :: rest =>
      unhurried s input ∧ unhurried_run options (step options s input) rest
  end.

(** The requests of [js], settled one after the other from the head of
    the pending list. *)
Definition settle_polls (js : list JobResponse.t) : list Input :=
  (λ j, SettleJob 0 (Fulfilled (Some j))) <$> js.

End useExtract.

(* ===================================================================== *)
(** * The earlier hook, without persistence                               *)
(* ===================================================================== *)

(** The copy of hooks/useExtract.ts that has no [localStorage], no mount
    effect besides its clean-up and no [startPolling]: [extract] registers
    the interval itself. It shares the state and the browser of
    [useExtract]; only what differs is restated. *)
Module Legacy.
Import Js useExtract.

(** [pollJob] from the point where [api.getJob] settles. A [null] body
    passes [setJob] and throws at [updatedJob.status], inside the [try]. *)
Definition pollJob_settled (options : UseExtractOptions)
    (settled : Settled (option JobResponse.t)) : Hook unit :=
  match settled with
  | Fulfilled (Some updatedJob) =>
      setJob (Some updatedJob);;
      match JobResponse.status updatedJob with
      | completed =>
          setIsPolling false;;
          clear_polling;;
          call_optional (onComplete options) (OnComplete updatedJob)
      | failed =>
          setIsPolling false;;
          setError (Some (str_or (result_error updatedJob) "Error en la extracción"));;
          clear_polling;;
          call_optional (onError options)
            (OnError (new_Error (str_or (result_error updatedJob) "Error")))
      | _ => skip
      end
  | Fulfilled None =>
      setJob None;;
      console_error (ThrowError (TypeError_null "status"))
  | Rejected err => console_error err
  end.

(** [extract] from the point where [api.startExtraction] settles. *)
Definition extract_settled (options : UseExtractOptions)
    (settled : Settled (option JobResponse.t)) : Hook (option JobResponse.t) :=
  match settled with
  | Fulfilled (Some newJob) =>
      setJob (Some newJob);;
      set_jobIdRef (Some (JobResponse.job_id newJob));;
      setIsPolling true;;
      setIsLoading false;;
      t ← setInterval (interval options);
      set_pollingRef (Some t);;
      mret (Some newJob)
  | Fulfilled None =>
      setJob None;;
      extract_catch options (ThrowError (TypeError_null "job_id"))
  | Rejected err => extract_catch options err
  end.

Definition reset : Hook unit :=
  clear_polling;;
  setIsLoading false;;
  setIsPolling false;;
  setJob None;;
  setVideoInfo None;;
  setError None;;
  set_jobIdRef None.

End Legacy.

(* ===================================================================== *)
(** * Concrete runs                                                       *)
(* ===================================================================== *)

Module Scenario.
Import Js useExtract.

(** Both callbacks supplied, the default interval. *)
Definition watched : UseExtractOptions :=
  {| pollingInterval := None; onComplete := true; onError := true |}.

Definition a_job (jobId : string) (status : JobStatus) (progress : Z)
    (result : option ExtractResult.t) : JobResponse.t :=
  {| JobResponse.job_id := jobId; JobResponse.status := status;
     JobResponse.progress := progress; JobResponse.message := "";
     JobResponse.created_at := "2024-01-01T00:00:00";
     JobResponse.video_info := None; JobResponse.result := result |}.

Definition a_success (url : string) : ExtractResult.t :=
  {| ExtractResult.success := true; ExtractResult.audio_url := Some url;
     ExtractResult.filename := None; ExtractResult.file_size := None;
     ExtractResult.format := None; ExtractResult.quality := None;
     ExtractResult.error := None |}.

Definition a_failure (msg : option string) : ExtractResult.t :=
  {| ExtractResult.success := false; ExtractResult.audio_url := None;
     ExtractResult.filename := None; ExtractResult.file_size := None;
     ExtractResult.format := None; ExtractResult.quality := None;
     ExtractResult.error := msg |}.

Definition abc_pending := a_job "abc" pending 0 None.
Definition abc_processing := a_job "abc" processing 10 None.
Definition abc_completed :=
  a_job "abc" completed 100 (Some (a_success "https://cdn.example/abc.mp3")).
Definition abc_extracting := a_job "abc" extracting 60 None.

(** One job from submission to completion, a poll answered at the start
    of the loop and after each of two firings of the interval. *)
Definition whole_job : list Input :=
  [Extract "https://youtube.com/watch?v=XYZ" mp3 q192;
   SettleJob 0 (Fulfilled (Some abc_pending));
   SettleJob 0 (Fulfilled (Some abc_processing));
   Tick 1%positive;
   SettleJob 0 (Fulfilled (Some abc_extracting));
   Tick 1%positive;
   SettleJob 0 (Fulfilled (Some abc_completed))].

(** The states a run goes through. *)
Fixpoint states (options : UseExtractOptions) (s : State) (inputs : list Input)
    : list State :=
  match inputs with
  | [] => []
  | input :: rest => step options s input :: states options (step options s input) rest
  end.

(** A job is submitted and accepted; its first poll has not come back
    when the interval fires, so two polls of "abc" are pending at once. *)
Definition two_polls_pending : State :=
  run watched (init ∅)
    [Extract "https://youtube.com/watch?v=XYZ" mp3 q192;
     SettleJob 0 (Fulfilled (Some abc_pending));
     Tick 1%positive].

Definition no_id_pending := a_job "" pending 0 None.

(** The service answers a submission with an empty [job_id]; the
    interval then fires twice. *)
Definition empty_id_loop : State :=
  run watched (init ∅)
    [Extract "https://youtube.com/watch?v=XYZ" mp3 q192;
     SettleJob 0 (Fulfilled (Some no_id_pending));
     Tick 1%positive; Tick 1%positive].

(** The earlier hook: a job is submitted and accepted. *)
Definition legacy_accepted : State :=
  exec (Legacy.extract_settled watched (Fulfilled (Some abc_pending)))
    (exec (with_awaiting (delete 0%nat))
       (exec (extract "https://youtube.com/watch?v=XYZ" mp3 q192) (init ∅))).

Definition old_processing := a_job "old" processing 40 None.
Definition old_completed :=
  a_job "old" completed 100 (Some (a_success "https://cdn.example/old.mp3")).

(** The storage a page finds when job "old" was submitted before the
    last reload. *)
Definition old_stored : gmap string string := {[STORAGE_KEY := "old"]}.

(** The page reloads with job "old" stored. While the status request of
    the mount effect is on its way the form is enabled, and the user
    submits another video. Both requests are then answered with a job in
    progress: first that of the mount effect, then that of [extract]. *)
Definition resume_races_submit : State :=
  run watched (init old_stored)
    [Mount;
     Extract "https://youtube.com/watch?v=XYZ" mp3 q192;
     SettleJob 0 (Fulfilled (Some old_processing));
     SettleJob 0 (Fulfilled (Some abc_pending))].

(** A failed job whose [result.error] is there, and empty. *)
Definition abc_failed_silently := a_job "abc" failed 40 (Some (a_failure (Some ""))).
Definition abc_too_long :=
  a_job "abc" failed 40 (Some (a_failure (Some "Video too long"))).

(** A non-2xx response with a JSON body. *)
Definition refused (status : Z) (body : Json) : Api.Response :=
  {| Api.ok := false; Api.status := status; Api.json := Fulfilled body |}.

(** The body FastAPI sends with a 422: [detail] is a list of objects. *)
Definition validation_errors : Json :=
  JObj [("detail",
         JArr [JObj [("loc", JArr [JStr "body"; JStr "url"]);
                     ("msg", JStr "field required");
                     ("type", JStr "value_error.missing")]])].

(** The hook of [two_polls_pending], then [reset()] while both polls are
    still on their way. *)
Definition reset_while_polling : State :=
  step watched two_polls_pending Reset.

End Scenario.

(* ===================================================================== *)
(** * What the hook returns, and what a run may do                        *)
(* ===================================================================== *)

Module Observe.
Import Js useExtract.

(** [isProcessing: isLoading || isPolling] *)
Definition isProcessing (s : State) : bool := isLoading s || isPolling s.

(** [progress: job?.progress ?? 0] *)
Definition progress (s : State) : Z := from_option JobResponse.progress 0 (job s).

(** [status: job?.status ?? null] *)
Definition status (s : State) : option JobStatus := JobResponse.status <$> job s.

(** A request sent, or a timer registered. *)
Definition is_request (e : Event) : bool :=
  match e with
  | GetJob _ | StartExtraction _ _ _ | GetVideoInfo _ | SetInterval _ _ => true
  | _ => false
  end.

(** What one step may add to the trace, seen from the state [s] it
    starts in and the state [s'] it ends in: a callback only if it was
    supplied, [onComplete] only with a completed job, [clearInterval]
    only of the timer the ref held, [setInterval] only under a fresh
    identifier that goes into the ref. *)
Definition tidy (options : UseExtractOptions) (s s' : State) (e : Event) : Prop :=
  match e with
  | OnComplete j =>
      onComplete options = true ∧ JobResponse.status j = completed
  | OnError _ => onError options = true
  | ClearInterval t => pollingRef s = Some t
  | SetInterval t ms =>
      t = nextTimer s ∧ ms = interval options ∧ pollingRef s' = Some t
  | _ => True
  end.

(** The callbacks a trace may hold: none that was not supplied, and
    [onComplete] with a completed job only. *)
Definition permitted (options : UseExtractOptions) (e : Event) : Prop :=
  match e with
  | OnComplete j =>
      onComplete options = true ∧ JobResponse.status j = completed
  | OnError _ => onError options = true
  | _ => True
  end.

(** The ref holds no timer, or the one it held, or one just registered. *)
Definition ref_follows (s s' : State) (new : list Event) : Prop :=
  pollingRef s' = pollingRef s
  ∨ pollingRef s' = None
  ∨ (∃ ms, pollingRef s' = Some (nextTimer s) ∧ SetInterval (nextTimer s) ms ∈ new).

(** Every timer the trace clears, and the one the ref holds, was
    registered by an earlier [setInterval] of the trace. *)
Definition own_timers (s : State) : Prop :=
  (∀ t, pollingRef s = Some t → ∃ ms, SetInterval t ms ∈ trace s)
  ∧ (∀ t, ClearInterval t ∈ trace s → ∃ ms, SetInterval t ms ∈ trace s).

(** No interval is live and no pending request can start one. *)
Definition idle (s : State) : Prop :=
  timers s = ∅ ∧ starters (awaiting s) = 0%nat.

(** The inputs by which the caller or the page makes the hook send a
    request. *)
Definition from_outside (input : Input) : bool :=
  match input with
  | Mount | FetchInfo _ | Extract _ _ _ => true
  | _ => false
  end.

(** A loop on [jobId] as [looping] has it, shown to the caller and
    backed by the storage. *)
Definition watching (t : positive) (ms : Z) (jobId : string)
    (storage : gmap string string) (s : State) : Prop :=
  looping t ms jobId s
  ∧ isPolling s = true ∧ isLoading s = false
  ∧ localStorage s = storage.

End Observe.

(* ===================================================================== *)
(** * The earlier hook as a whole                                         *)
(* ===================================================================== *)

Module LegacyRun.
Import Js useExtract.

Definition resume_awaiting (options : UseExtractOptions) (a : Awaiting)
    (settled : Settled (option JobResponse.t)) : Hook unit :=
  match a with
  | AwaitPoll _ => Legacy.pollJob_settled options settled
  | AwaitExtract => Legacy.extract_settled options settled;; skip
  | AwaitResume _ | AwaitInfo => skip
  end.

(** The event loop of the earlier hook. Its only effect at mount is the
    clean-up it returns; [fetchInfo], [extract] up to its request and the
    handler of the interval read as in the later hook. *)
Definition step (options : UseExtractOptions) (s : State) (input : Input)
    : State :=
  match input with
  | Mount => s
  | Unmount => exec unmount s
  | FetchInfo url => exec (fetchInfo url) s
  | Extract url format quality => exec (extract url format quality) s
  | Reset => exec Legacy.reset s
  | Tick t =>
      match timers s !! t with
      | Some _ => exec interval_handler s
      | None => s
      end
  | SettleJob i settled =>
      match awaiting s !! i with
      | Some AwaitInfo | Some (AwaitResume _) | None => s
      | Some a =>
          exec (with_awaiting (delete i);; resume_awaiting options a settled) s
      end
  | SettleInfo i settled =>
      match awaiting s !! i with
      | Some AwaitInfo =>
          exec (with_awaiting (delete i);; fetchInfo_settled settled) s
      | _ => s
      end
  end.

Definition run (options : UseExtractOptions) (s : State) (inputs : list Input)
    : State :=
  foldl (step options) s inputs.

End LegacyRun.

(* ===================================================================== *)
(** * The calls of the API client                                         *)
(* ===================================================================== *)

Module Calls.
Import Js Api.

(** ** [encodeURIComponent]

    A string stands for its UTF-8 bytes. The characters the function
    leaves alone are all ASCII, and it escapes every other character
    byte by byte of its UTF-8 form, so on these bytes it works one byte
    at a time. *)

Definition between (lo hi a : ascii) : bool :=
  (N_of_ascii lo <=? N_of_ascii a)%N && (N_of_ascii a <=? N_of_ascii hi)%N.

(** [A-Z a-z 0-9 - _ . ! ~ * ' ( )] *)
Definition unreserved (a : ascii) : bool :=
  between "A" "Z" a || between "a" "z" a || between "0" "9" a
  || bool_decide (a ∈ ["-"; "_"; "."; "!"; "~"; "*"; "'"; "("; ")"]%char).

Definition hex_digit (n : N) : ascii :=
  default "0"%char (String.get (N.to_nat n) "0123456789ABCDEF").

Definition percent (a : ascii) : string :=
  String "%" (String (hex_digit (N_of_ascii a / 16))
                (String (hex_digit (N_of_ascii a mod 16)) "")).

Fixpoint encodeURIComponent (s : string) : string :=
  match s with
  | "" => ""
  | String a rest =>
      (if unreserved a then String a "" else percent a)
      +:+ encodeURIComponent rest
  end.

(** [api.getVideoInfo(url)] requests [`/info?url=${encodeURIComponent(url)}`]. *)
Definition getVideoInfo_endpoint (url : string) : string :=
  "/info?url=" +:+ encodeURIComponent url.

(** The value of a hexadecimal digit, and the reading of an escaped
    string that undoes [encodeURIComponent]. *)
Definition hex_value (a : ascii) : option N :=
  if between "0" "9" a then Some (N_of_ascii a - 48)%N
  else if between "A" "F" a then Some (N_of_ascii a - 55)%N
  else None.

Fixpoint unescape (s : string) : option string :=
  match s with
  | "" => Some ""
  | String "%" (String h (String l rest)) =>
      match hex_value h, hex_value l, unescape rest with
      | Some x, Some y, Some r => Some (String (ascii_of_N (16 * x + y)) r)
      | _, _, _ => None
      end
  | String "%" _ => None
  | String a rest => String a <$> unescape rest
  end.

(** ** [api.uploadVideo] *)

(** The upload of the client without a time limit, from the point where
    [fetch] settles. *)
Definition uploadVideo (fetched : Fetched) : Settled Json :=
  match fetched with
  | NetworkFailure e => Rejected (ThrowError e)
  | Responded response =>
      if negb (ok response) then
        let error := json_or_unknown response in
        match detail_of error with
        | inl type_error => Rejected (ThrowError type_error)
        | inr detail =>
            Rejected (ThrowError
              (error_of_or detail ("HTTP " +:+ pretty (Api.status response))))
        end
      else json response
  end.

(** What the upload with a time limit does to its timer. *)
Inductive TimerCall :=
  | SetTimeout (ms : Z)
  | ClearTimeout.

Definition too_slow : string :=
  "La solicitud tardó demasiado tiempo. Intenta con un archivo más pequeño o verifica tu conexión.".

(** The [catch] clause of the upload with a time limit:
    [clearTimeout(timeoutId)], then the time-out message for an
    [AbortError] and the error itself otherwise. *)
Definition uploadVideo_catch (error : JsError) : list TimerCall * Settled Json :=
  ([ClearTimeout],
   if String.eqb (name error) "AbortError"
   then Rejected (ThrowError (new_Error too_slow))
   else Rejected (ThrowError error)).

(** The upload with a time limit of 15 minutes, from the point where
    [fetch] settles. When the timer fires first, [controller.abort()]
    makes [fetch] reject with an [AbortError]. What is thrown inside the
    [try] goes through the [catch] clause; the promise of the final
    [return response.json()] is not awaited there and does not. *)
Definition uploadVideo_limited (fetched : Fetched)
    : list TimerCall * Settled Json :=
  let started := [SetTimeout 900000] in
  match fetched with
  | NetworkFailure e =>
      let '(calls, settled) := uploadVideo_catch e in
      (started ++ calls, settled)
  | Responded response =>
      let cleared := started ++ [ClearTimeout] in
      if negb (ok response) then
        let error := json_or_unknown response in
        let thrown :=
          match detail_of error with
          | inl type_error => type_error
          | inr detail =>
              error_of_or detail ("HTTP " +:+ pretty (Api.status response))
          end in
        let '(calls, settled) := uploadVideo_catch thrown in
        (cleared ++ calls, settled)
      else (cleared, json response)
  end.

(** ** [api.deleteJob] *)

(** The earlier client: the body is never read. *)
Definition deleteJob_earlier (response : Response) : Settled unit :=
  if negb (ok response)
  then Rejected (ThrowError (new_ApiError (Api.status response) "Error al eliminar job"))
  else Fulfilled ().

(** The later client: [request<void>(`/jobs/${jobId}`, { method: 'DELETE' })]. *)
Definition deleteJob (fetched : Fetched) : Settled Json := request fetched.

End Calls.

(* ===================================================================== *)
(** * The upload of a file (App.tsx)                                      *)
(* ===================================================================== *)

Module App.
Import Js.

Record UploadResponse := mkUploadResponse {
  status : string;
  audio_url : option string;
  filename : option string;
  file_size : option Z;
  file_size_formatted : option string;
  original_size : option Z;
  original_size_formatted : option string;
  duration : option Z;
  duration_formatted : option string;
  format : option string;
  quality : option string;
  processing_time : option Z;
  job_id : option string;
  error_code : option string;
  message : option string
}.

(** The [useState] cells of [App] that the upload touches, and the
    timers it has running: the intervals that fake progress, the
    time-outs that take the toast down, the uploads still pending. *)
Record Upload := mkUpload {
  isUploading : bool;
  uploadResult : option UploadResponse;
  uploadError : option string;
  uploadProgress : Z;
  showToast : option string;
  progressIntervals : nat;
  toastTimeouts : nat;
  pendingUploads : nat
}.

Definition start : Upload :=
  {| isUploading := false; uploadResult := None; uploadError := None;
     uploadProgress := 0; showToast := None; progressIntervals := 0;
     toastTimeouts := 0; pendingUploads := 0 |}.

(** [handleUpload(file, format, quality)] up to [await api.uploadVideo(...)]. *)
Definition handleUpload (u : Upload) : Upload :=
  {| isUploading := true; uploadResult := None; uploadError := None;
     uploadProgress := 10; showToast := showToast u;
     progressIntervals := S (progressIntervals u);
     toastTimeouts := toastTimeouts u;
     pendingUploads := S (pendingUploads u) |}.

(** The handler of the progress interval:
    [setUploadProgress(prev => Math.min(prev + 10, 90))] *)
Definition progress_handler (u : Upload) : Upload :=
  {| isUploading := isUploading u; uploadResult := uploadResult u;
     uploadError := uploadError u;
     uploadProgress := Z.min (uploadProgress u + 10) 90;
     showToast := showToast u; progressIntervals := progressIntervals u;
     toastTimeouts := toastTimeouts u; pendingUploads := pendingUploads u |}.

(** [handleUpload] from the point where [api.uploadVideo] settles. The
    interval is cleared after the [await] only; the [catch] clause and
    the [finally] clause leave it alone. A [null] result throws at
    [result.status], after the interval is cleared and the progress set. *)
Definition handleUpload_settled (settled : Settled (option UploadResponse))
    (u : Upload) : Upload :=
  match settled with
  | Fulfilled (Some result) =>
      if String.eqb (status result) "success" then
        {| isUploading := false; uploadResult := Some result;
           uploadError := uploadError u; uploadProgress := 100;
           showToast := Some "¡Audio extraído exitosamente!";
           progressIntervals := pred (progressIntervals u);
           toastTimeouts := S (toastTimeouts u);
           pendingUploads := pred (pendingUploads u) |}
      else
        {| isUploading := false; uploadResult := uploadResult u;
           uploadError :=
             Some (str_or (message result) "Error al procesar el archivo");
           uploadProgress := 100; showToast := showToast u;
           progressIntervals := pred (progressIntervals u);
           toastTimeouts := toastTimeouts u;
           pendingUploads := pred (pendingUploads u) |}
  | Fulfilled None =>
      {| isUploading := false; uploadResult := uploadResult u;
         uploadError := Some (Js.message (TypeError_null "status"));
         uploadProgress := 100; showToast := showToast u;
         progressIntervals := pred (progressIntervals u);
         toastTimeouts := toastTimeouts u;
         pendingUploads := pred (pendingUploads u) |}
  | Rejected err =>
      {| isUploading := false; uploadResult := uploadResult u;
         uploadError := Some (message_or err "Error desconocido");
         uploadProgress := uploadProgress u; showToast := showToast u;
         progressIntervals := progressIntervals u;
         toastTimeouts := toastTimeouts u;
         pendingUploads := pred (pendingUploads u) |}
  end.

(** [setTimeout(() => setShowToast(null), 3000)] fires. *)
Definition toast_handler (u : Upload) : Upload :=
  {| isUploading := isUploading u; uploadResult := uploadResult u;
     uploadError := uploadError u; uploadProgress := uploadProgress u;
     showToast := None; progressIntervals := progressIntervals u;
     toastTimeouts := pred (toastTimeouts u);
     pendingUploads := pendingUploads u |}.

(** [handleReset()]: the hook's [reset()], then the upload's cells. *)
Definition handleReset (app : useExtract.State * Upload)
    : useExtract.State * Upload :=
  let '(s, u) := app in
  (useExtract.exec useExtract.reset s,
   {| isUploading := isUploading u; uploadResult := None;
      uploadError := None; uploadProgress := 0; showToast := showToast u;
      progressIntervals := progressIntervals u;
      toastTimeouts := toastTimeouts u; pendingUploads := pendingUploads u |}).

(** What can happen to the upload. *)
Inductive Input :=
  | HandleUpload
  | ProgressTick
  | UploadSettled (settled : Settled (option UploadResponse))
  | ToastTimeout.

Definition step (u : Upload) (input : Input) : Upload :=
  match input with
  | HandleUpload => handleUpload u
  | ProgressTick =>
      match progressIntervals u with
      | O => u
      | S _ => progress_handler u
      end
  | UploadSettled settled =>
      match pendingUploads u with
      | O => u
      | S _ => handleUpload_settled settled u
      end
  | ToastTimeout =>
      match toastTimeouts u with
      | O => u
      | S _ => toast_handler u
      end
  end.

Definition run (u : Upload) (inputs : list Input) : Upload :=
  foldl step u inputs.

End App.

(* ===================================================================== *)
(** * Properties                                                          *)
(* ===================================================================== *)

Import Js useExtract.

(** Unfold the hook's statements down to the state they build. *)
Ltac hook_unfold :=
  cbv beta iota zeta delta
    [exec eval mbind mret Hook_bind Hook_ret skip read modify
     setIsLoading setIsPolling setJob setVideoInfo setError
     set_pollingRef set_jobIdRef with_localStorage with_timers with_awaiting
     emit setInterval clearInterval suspend call_optional console_error
     saveJobId clearJobId getSavedJobId clear_polling pollJob
     pollJob_settled interval_handler startPolling mount mount_settled
     unmount fetchInfo fetchInfo_settled extract extract_catch
     extract_settled reset resume_awaiting
     Legacy.pollJob_settled Legacy.extract_settled Legacy.reset
     isLoading isPolling job videoInfo error pollingRef jobIdRef
     localStorage timers nextTimer awaiting trace fst snd id].

(** ** How the pieces of the hook act on a state *)

Lemma exec_bind {A B} (m : Hook A) (f : A → Hook B) s :
  exec (m ≫= f) s = exec (f (eval m s)) (exec m s).
Proof. unfold exec, eval, mbind, Hook_bind. destruct (m s); reflexivity. Qed.

Section Pieces.

Variable options : UseExtractOptions.

(** A poll response with a terminal status. *)
Lemma pollJob_settled_terminal s j :
  terminal (JobResponse.status j) = true →
  exec (pollJob_settled options (Fulfilled (Some j))) s =
  {| isLoading := isLoading s;
     isPolling := false;
     job := Some j;
     videoInfo := from_option Some (videoInfo s) (JobResponse.video_info j);
     error :=
       match JobResponse.status j with
       | failed => Some (str_or (result_error j) "Error en la extracción")
       | _ => error s
       end;
     pollingRef := None;
     jobIdRef := jobIdRef s;
     localStorage := delete STORAGE_KEY (localStorage s);
     timers := without_timer (pollingRef s) (timers s);
     nextTimer := nextTimer s;
     awaiting := awaiting s;
     trace := (trace s ++ cleared (pollingRef s)) ++ callbacks options j |}.
Proof.
  intros Hterm. unfold callbacks.
  destruct s as [? ? ? ? ? [t|] ? ? ? ? ? ?], options as [? [|] [|]];
    destruct (JobResponse.status j) eqn:Hst; try discriminate Hterm;
    hook_unfold; rewrite Hst; destruct (JobResponse.video_info j);
    cbn; rewrite ?app_nil_r; reflexivity.
Qed.

(** A poll response with any other status. *)
Lemma pollJob_settled_progress s j :
  terminal (JobResponse.status j) = false →
  exec (pollJob_settled options (Fulfilled (Some j))) s =
  {| isLoading := isLoading s;
     isPolling := isPolling s;
     job := Some j;
     videoInfo := from_option Some (videoInfo s) (JobResponse.video_info j);
     error := error s;
     pollingRef := pollingRef s;
     jobIdRef := jobIdRef s;
     localStorage := localStorage s;
     timers := timers s;
     nextTimer := nextTimer s;
     awaiting := awaiting s;
     trace := trace s |}.
Proof.
  intros Hterm.
  destruct s; destruct (JobResponse.status j) eqn:Hst; try discriminate Hterm;
    hook_unfold; rewrite Hst; destruct (JobResponse.video_info j); reflexivity.
Qed.

(** A poll request that fails. *)
Lemma pollJob_settled_rejected s err :
  exec (pollJob_settled options (Rejected err)) s =
  {| isLoading := isLoading s;
     isPolling := isPolling s;
     job := job s;
     videoInfo := videoInfo s;
     error := error s;
     pollingRef := pollingRef s;
     jobIdRef := jobIdRef s;
     localStorage := localStorage s;
     timers := timers s;
     nextTimer := nextTimer s;
     awaiting := awaiting s;
     trace := trace s ++ [ConsoleError err] |}.
Proof. destruct s; reflexivity. Qed.

(** Settling a pending poll request takes it off the pending list and
    runs the rest of [pollJob]. *)
Lemma step_settle_poll s i jobId settled :
  awaiting s !! i = Some (AwaitPoll jobId) →
  step options s (SettleJob i settled)
  = exec (pollJob_settled options settled) (exec (with_awaiting (delete i)) s).
Proof.
  intros Hi. unfold step. rewrite Hi. rewrite exec_bind. reflexivity.
Qed.

(** Settling the pending request of [extract]. *)
Lemma step_settle_extract s i settled :
  awaiting s !! i = Some AwaitExtract →
  step options s (SettleJob i settled)
  = exec (extract_settled options settled) (exec (with_awaiting (delete i)) s).
Proof.
  intros Hi. unfold step. rewrite Hi. rewrite exec_bind.
  unfold resume_awaiting. rewrite exec_bind. reflexivity.
Qed.

(** Settling the pending request of the mount effect. *)
Lemma step_settle_resume s i savedJobId settled :
  awaiting s !! i = Some (AwaitResume savedJobId) →
  step options s (SettleJob i settled)
  = exec (mount_settled options savedJobId settled)
      (exec (with_awaiting (delete i)) s).
Proof.
  intros Hi. unfold step. rewrite Hi. rewrite exec_bind. reflexivity.
Qed.

Lemma truthy_nonempty jobId : jobId ≠ "" → truthy_str (Some jobId) = true.
Proof.
  intros Hne. unfold truthy_str.
  destruct (String.eqb_spec jobId ""); [contradiction|reflexivity].
Qed.

(** The interval fires while [jobIdRef] holds an identifier. *)
Lemma interval_handler_fetches s jobId :
  jobIdRef s = Some jobId → jobId ≠ "" →
  exec interval_handler s =
  {| isLoading := isLoading s; isPolling := isPolling s; job := job s;
     videoInfo := videoInfo s; error := error s; pollingRef := pollingRef s;
     jobIdRef := jobIdRef s; localStorage := localStorage s;
     timers := timers s; nextTimer := nextTimer s;
     awaiting := awaiting s ++ [AwaitPoll jobId];
     trace := trace s ++ [GetJob jobId] |}.
Proof.
  intros Hj Hne. destruct s. cbn in Hj. subst.
  hook_unfold. rewrite (truthy_nonempty _ Hne). reflexivity.
Qed.

Lemma startPolling_state s jobId :
  exec (startPolling options jobId) s =
  {| isLoading := false; isPolling := true; job := job s;
     videoInfo := videoInfo s; error := error s;
     pollingRef := Some (nextTimer s);
     jobIdRef := Some jobId; localStorage := localStorage s;
     timers := <[nextTimer s := interval options]> (timers s);
     nextTimer := Pos.succ (nextTimer s);
     awaiting := awaiting s ++ [AwaitPoll jobId];
     trace := (trace s ++ [GetJob jobId])
              ++ [SetInterval (nextTimer s) (interval options)] |}.
Proof. destruct s. reflexivity. Qed.

Lemma reset_state s :
  exec reset s =
  {| isLoading := false; isPolling := false; job := None;
     videoInfo := None; error := None; pollingRef := None;
     jobIdRef := None;
     localStorage := delete STORAGE_KEY (localStorage s);
     timers := without_timer (pollingRef s) (timers s);
     nextTimer := nextTimer s;
     awaiting := awaiting s;
     trace := trace s ++ cleared (pollingRef s) |}.
Proof.
  destruct s as [? ? ? ? ? [t|] ? ? ? ? ? ?]; hook_unfold; cbn;
    rewrite ?app_nil_r; reflexivity.
Qed.

(** [extract] up to its request. *)
Lemma extract_state s url format quality :
  exec (extract url format quality) s =
  {| isLoading := true; isPolling := false; job := None;
     videoInfo := videoInfo s; error := None; pollingRef := None;
     jobIdRef := jobIdRef s;
     localStorage := localStorage s;
     timers := without_timer (pollingRef s) (timers s);
     nextTimer := nextTimer s;
     awaiting := awaiting s ++ [AwaitExtract];
     trace := (trace s ++ cleared (pollingRef s))
              ++ [StartExtraction url format quality] |}.
Proof.
  destruct s as [? ? ? ? ? [t|] ? ? ? ? ? ?]; hook_unfold; cbn;
    rewrite ?app_nil_r; reflexivity.
Qed.

(** [extract] when its request is rejected. *)
Lemma extract_settled_rejected s err :
  extract_settled options (Rejected err) s =
  (None,
   {| isLoading := false; isPolling := isPolling s; job := job s;
      videoInfo := videoInfo s;
      error := Some (message_or err "Error al iniciar extracción");
      pollingRef := pollingRef s; jobIdRef := jobIdRef s;
      localStorage := localStorage s; timers := timers s;
      nextTimer := nextTimer s; awaiting := awaiting s;
      trace := trace s ++
        if onError options
        then [OnError (error_or err (message_or err "Error al iniciar extracción"))]
        else [] |}).
Proof.
  destruct s, options as [? ? [|]]; hook_unfold; cbn;
    rewrite ?app_nil_r; reflexivity.
Qed.

(** [extract] when its request is answered with a job. *)
Lemma extract_settled_fulfilled s newJob :
  extract_settled options (Fulfilled (Some newJob)) s =
  (Some newJob,
   {| isLoading := false; isPolling := true; job := Some newJob;
      videoInfo := videoInfo s; error := error s;
      pollingRef := Some (nextTimer s);
      jobIdRef := Some (JobResponse.job_id newJob);
      localStorage := <[STORAGE_KEY := JobResponse.job_id newJob]> (localStorage s);
      timers := <[nextTimer s := interval options]> (timers s);
      nextTimer := Pos.succ (nextTimer s);
      awaiting := awaiting s ++ [AwaitPoll (JobResponse.job_id newJob)];
      trace := (trace s ++ [GetJob (JobResponse.job_id newJob)])
               ++ [SetInterval (nextTimer s) (interval options)] |}).
Proof. destruct s. reflexivity. Qed.

(** The mount effect when something non-empty is stored. *)
Lemma mount_state s savedJobId :
  localStorage s !! STORAGE_KEY = Some savedJobId → savedJobId ≠ "" →
  exec mount s =
  {| isLoading := isLoading s; isPolling := isPolling s; job := job s;
     videoInfo := videoInfo s; error := error s; pollingRef := pollingRef s;
     jobIdRef := jobIdRef s; localStorage := localStorage s;
     timers := timers s; nextTimer := nextTimer s;
     awaiting := awaiting s ++ [AwaitResume savedJobId];
     trace := trace s ++ [GetJob savedJobId] |}.
Proof.
  intros Hk Hne. destruct s. cbn in Hk. hook_unfold. rewrite Hk.
  rewrite (truthy_nonempty _ Hne). reflexivity.
Qed.

(** The mount effect when nothing, or the empty string, is stored. *)
Lemma mount_nothing s :
  truthy_str (localStorage s !! STORAGE_KEY) = false → exec mount s = s.
Proof.
  intros Hk. destruct s. cbn in Hk. hook_unfold.
  destruct (_ !! STORAGE_KEY) as [saved|]; [|reflexivity].
  rewrite Hk. reflexivity.
Qed.

(** The mount effect's request fails, or is answered with [null]. *)
Lemma mount_settled_discard s savedJobId settled :
  settled = Fulfilled None ∨ (∃ err, settled = Rejected err) →
  exec (mount_settled options savedJobId settled) s =
  {| isLoading := isLoading s; isPolling := isPolling s; job := job s;
     videoInfo := videoInfo s; error := error s; pollingRef := pollingRef s;
     jobIdRef := jobIdRef s;
     localStorage := delete STORAGE_KEY (localStorage s);
     timers := timers s; nextTimer := nextTimer s;
     awaiting := awaiting s; trace := trace s |}.
Proof. intros [->|[err ->]]; destruct s; reflexivity. Qed.

(** The mount effect finds the job still in progress. *)
Lemma mount_settled_in_progress s savedJobId j :
  in_progress (JobResponse.status j) = true →
  exec (mount_settled options savedJobId (Fulfilled (Some j))) s =
  {| isLoading := false; isPolling := true; job := Some j;
     videoInfo := from_option Some (videoInfo s) (JobResponse.video_info j);
     error := error s;
     pollingRef := Some (nextTimer s);
     jobIdRef := Some savedJobId; localStorage := localStorage s;
     timers := <[nextTimer s := interval options]> (timers s);
     nextTimer := Pos.succ (nextTimer s);
     awaiting := awaiting s ++ [AwaitPoll savedJobId];
     trace := (trace s ++ [GetJob savedJobId])
              ++ [SetInterval (nextTimer s) (interval options)] |}.
Proof.
  intros Hp. destruct s. hook_unfold. rewrite Hp.
  destruct (JobResponse.video_info j); reflexivity.
Qed.

(** The mount effect finds the job finished. *)
Lemma mount_settled_finished s savedJobId j :
  in_progress (JobResponse.status j) = false →
  exec (mount_settled options savedJobId (Fulfilled (Some j))) s =
  {| isLoading := isLoading s; isPolling := isPolling s; job := Some j;
     videoInfo := from_option Some (videoInfo s) (JobResponse.video_info j);
     error := error s; pollingRef := pollingRef s;
     jobIdRef := jobIdRef s;
     localStorage := delete STORAGE_KEY (localStorage s);
     timers := timers s; nextTimer := nextTimer s;
     awaiting := awaiting s;
     trace := trace s ++
       match JobResponse.status j with
       | completed => if onComplete options then [OnComplete j] else []
       | _ => []
       end |}.
Proof.
  intros Hp. destruct s, options as [? [|] ?]; hook_unfold; rewrite Hp;
    destruct (JobResponse.video_info j), (JobResponse.status j);
    cbn; rewrite ?app_nil_r; reflexivity.
Qed.

Lemma in_progress_terminal status : in_progress status = negb (terminal status).
Proof. destruct status; reflexivity. Qed.

(** The earlier hook treats a terminal poll response as the later one
    does, except that it has no storage to empty and does not copy the
    job's metadata. *)
Lemma legacy_pollJob_settled_terminal s j :
  terminal (JobResponse.status j) = true →
  exec (Legacy.pollJob_settled options (Fulfilled (Some j))) s =
  {| isLoading := isLoading s;
     isPolling := false;
     job := Some j;
     videoInfo := videoInfo s;
     error :=
       match JobResponse.status j with
       | failed => Some (str_or (result_error j) "Error en la extracción")
       | _ => error s
       end;
     pollingRef := None;
     jobIdRef := jobIdRef s;
     localStorage := localStorage s;
     timers := without_timer (pollingRef s) (timers s);
     nextTimer := nextTimer s;
     awaiting := awaiting s;
     trace := (trace s ++ cleared (pollingRef s)) ++ callbacks options j |}.
Proof.
  intros Hterm. unfold callbacks.
  destruct s as [? ? ? ? ? [t|] ? ? ? ? ? ?], options as [? [|] [|]];
    destruct (JobResponse.status j) eqn:Hst; try discriminate Hterm;
    hook_unfold; rewrite Hst; cbn; rewrite ?app_nil_r; reflexivity.
Qed.

Lemma legacy_reset_keeps_storage s :
  localStorage (exec Legacy.reset s) = localStorage s
  ∧ job (exec Legacy.reset s) = None
  ∧ pollingRef (exec Legacy.reset s) = None.
Proof. destruct s as [? ? ? ? ? [t|] ? ? ? ? ? ?]; repeat split. Qed.

End Pieces.

(** The run of the specification's worked example: the status the hook
    shows goes through pending, processing, extracting and completed,
    [onComplete] is called once, with the final job, and the storage slot
    is empty at the end. *)
Example whole_job_run :
  let s := run Scenario.watched (init ∅) Scenario.whole_job in
  ((λ s, JobResponse.status <$> job s)
     <$> Scenario.states Scenario.watched (init ∅) Scenario.whole_job)
  = [None; Some pending; Some processing; Some processing;
     Some extracting; Some extracting; Some completed]
  ∧ List.filter is_callback (trace s) = [OnComplete Scenario.abc_completed]
  ∧ localStorage s !! STORAGE_KEY = None
  ∧ timers s = ∅.
Proof. repeat split; vm_compute; reflexivity. Qed.

(* ===================================================================== *)
(** * Terminal status: stopping the loop and calling back                 *)
(* ===================================================================== *)

Lemma count_app p l1 l2 : count p (l1 ++ l2) = (count p l1 + count p l2)%nat.
Proof. unfold count. rewrite List.filter_app, length_app. reflexivity. Qed.

Lemma count_outcomes_callback js : count is_callback (outcome <$> js) = length js.
Proof.
  induction js as [|j js IH]; [reflexivity|].
  unfold count in *. cbn. unfold outcome at 1.
  destruct (JobResponse.status j); cbn; rewrite IH; reflexivity.
Qed.

Lemma count_outcomes_clear js : count is_ClearInterval (outcome <$> js) = 0%nat.
Proof.
  induction js as [|j js IH]; [reflexivity|].
  unfold count in *. cbn. unfold outcome at 1.
  destruct (JobResponse.status j); cbn; rewrite IH; reflexivity.
Qed.

Lemma since_app s s' l : trace s' = trace s ++ l → since s s' = l.
Proof. intros H. unfold since. rewrite H. apply drop_app_length. Qed.

Section Terminal.

Variable options : UseExtractOptions.
Hypothesis complete_supplied : onComplete options = true.
Hypothesis error_supplied : onError options = true.

Lemma callbacks_outcome j :
  terminal (JobResponse.status j) = true → callbacks options j = [outcome j].
Proof.
  unfold callbacks, outcome. rewrite complete_supplied, error_supplied.
  destruct (JobResponse.status j); intros H; try discriminate H; reflexivity.
Qed.

(** Terminal responses settled one after the other: only the first finds
    a timer in the ref, every one of them calls back. *)
Lemma settle_polls_terminal js : ∀ s ids rest,
  awaiting s = (AwaitPoll <$> ids) ++ rest →
  length ids = length js →
  Forall (λ j, terminal (JobResponse.status j) = true) js →
  let s' := run options s (settle_polls js) in
  trace s' = trace s
             ++ match js with [] => [] | _ => cleared (pollingRef s) end
             ++ (outcome <$> js)
  ∧ pollingRef s' = match js with [] => pollingRef s | _ => None end
  ∧ timers s' = match js with
                | [] => timers s
                | _ => without_timer (pollingRef s) (timers s)
                end
  ∧ awaiting s' = rest.
Proof.
  induction js as [|j js IH]; intros s ids rest Haw Hlen Hall.
  - destruct ids; [|discriminate Hlen]. cbn in *.
    rewrite app_nil_r. auto.
  - destruct ids as [|jobId ids]; [discriminate Hlen|].
    apply Forall_cons in Hall as [Hj Hall].
    cbn [settle_polls fmap list_fmap run foldl].
    rewrite (step_settle_poll options s 0 jobId) by (rewrite Haw; reflexivity).
    rewrite (pollJob_settled_terminal options _ j Hj).
    rewrite (callbacks_outcome j Hj).
    match goal with |- context [foldl _ ?s1 _] => set (s1' := s1) end.
    destruct (IH s1' ids rest) as (Htr & Hpr & Htm & Haw').
    + subst s1'. destruct s. cbn in *. rewrite Haw. reflexivity.
    + cbn in Hlen. lia.
    + exact Hall.
    + unfold run, settle_polls in *. cbn zeta in *.
      rewrite Htr, Hpr, Htm, Haw'. subst s1'. destruct s. cbn.
      repeat split; try (destruct js; reflexivity).
      rewrite <- !app_assoc. destruct js; reflexivity.
Qed.

End Terminal.

(** C1, as the code has it. While the ref holds the timer of the loop,
    any number of poll responses with a terminal status, settled one
    after the other (the responses of overlapping fetches), cancel that
    timer exactly once, by the first of them, and call back once per
    response: [onComplete] for "completed", [onError] for "failed". A
    single terminal response therefore gives exactly one cancellation
    and exactly one callback. *)
Theorem C1_terminal_responses options s t ids rest js :
  onComplete options = true →
  onError options = true →
  pollingRef s = Some t →
  awaiting s = (AwaitPoll <$> ids) ++ rest →
  length ids = length js →
  js ≠ [] →
  Forall (λ j, terminal (JobResponse.status j) = true) js →
  let s' := run options s (settle_polls js) in
  since s s' = ClearInterval t :: (outcome <$> js)
  ∧ count is_ClearInterval (since s s') = 1%nat
  ∧ count is_callback (since s s') = length js
  ∧ pollingRef s' = None
  ∧ timers s' !! t = None.
Proof.
  intros Hc He Hp Haw Hlen Hne Hall s'.
  destruct (settle_polls_terminal options Hc He js s ids rest Haw Hlen Hall)
    as (Htr & Hpr & Htm & _).
  fold s' in Htr, Hpr, Htm.
  destruct js as [|j js]; [congruence|].
  rewrite Hp in Htr, Htm. cbn [cleared app] in Htr.
  rewrite (since_app s s' _ Htr).
  repeat split.
  - change (ClearInterval t :: (outcome <$> j :: js))
      with ([ClearInterval t] ++ (outcome <$> j :: js)).
    rewrite count_app, count_outcomes_clear. reflexivity.
  - change (ClearInterval t :: (outcome <$> j :: js))
      with ([ClearInterval t] ++ (outcome <$> j :: js)).
    rewrite count_app, count_outcomes_callback. reflexivity.
  - exact Hpr.
  - rewrite Htm. cbn. apply lookup_delete_eq.
Qed.

(** The two overlapping polls of "abc" both answer "completed". *)
Lemma C1_terminal_responses_witness :
  let s := Scenario.two_polls_pending in
  let s' := run Scenario.watched s
              (settle_polls [Scenario.abc_completed; Scenario.abc_completed]) in
  since s s' = ClearInterval 1 :: (outcome <$> [Scenario.abc_completed; Scenario.abc_completed])
  ∧ count is_ClearInterval (since s s') = 1%nat
  ∧ count is_callback (since s s') = 2%nat
  ∧ pollingRef s' = None
  ∧ timers s' !! 1%positive = None.
Proof.
  apply (C1_terminal_responses Scenario.watched Scenario.two_polls_pending
           1%positive ["abc"; "abc"] []
           [Scenario.abc_completed; Scenario.abc_completed]).
  - reflexivity.
  - reflexivity.
  - vm_compute; reflexivity.
  - vm_compute; reflexivity.
  - reflexivity.
  - discriminate.
  - repeat constructor.
Defined.

(** C1 as the specification words it fails: when the two overlapping
    polls of "abc" both come back "completed", the timer is cancelled
    once, but [onComplete] is called twice. *)
Lemma C1_overlapping_completions :
  let s' := run Scenario.watched Scenario.two_polls_pending
              [SettleJob 0 (Fulfilled (Some Scenario.abc_completed));
               SettleJob 0 (Fulfilled (Some Scenario.abc_completed))] in
  count is_ClearInterval (trace s') = 1%nat
  ∧ count is_callback (trace s') = 2%nat
  ∧ ¬ (count is_ClearInterval (trace s') = 1%nat
       ∧ count is_callback (trace s') = 1%nat).
Proof.
  split; [vm_compute; reflexivity|].
  split; [vm_compute; reflexivity|].
  intros [_ H]. vm_compute in H. discriminate H.
Qed.

(* ===================================================================== *)
(** * reset()                                                             *)
(* ===================================================================== *)

Lemma lookup_without_timer t (live : gmap positive Z) :
  without_timer (Some t) live !! t = None.
Proof. apply lookup_delete_eq. Qed.

Lemma without_timer_none current (live : gmap positive Z) :
  (∀ t, is_Some (live !! t) → current = Some t) →
  without_timer current live = ∅.
Proof.
  intros Hone. apply map_empty. intros t.
  destruct current as [t0|]; cbn.
  - destruct (decide (t0 = t)) as [->|Hne]; [apply lookup_delete_eq|].
    rewrite lookup_delete_ne by exact Hne.
    destruct (live !! t) eqn:Ht; [|reflexivity].
    specialize (Hone t (ex_intro _ _ Ht)). congruence.
  - destruct (live !! t) eqn:Ht; [|reflexivity].
    specialize (Hone t (ex_intro _ _ Ht)). discriminate.
Qed.

(** C2, as the code has it. [reset()] cancels the timer the ref holds,
    empties the storage slot and clears job, metadata, error and both
    flags, so that no interval is left when that timer was the only one;
    with no timer in the ref it leaves timers and trace as they are. A
    poll that was pending when [reset()] was called
    is not cancelled and its response is not discarded: it starts no
    timer, issues no request and stores no identifier, but it puts the
    fetched job (and the metadata it carries) back into the state and
    reaches the callbacks of a terminal status. *)
Theorem C2_reset_and_late_response options s :
  let s' := step options s Reset in
  (pollingRef s' = None
   ∧ (∀ t, pollingRef s = Some t →
        timers s' !! t = None ∧ since s s' = [ClearInterval t])
   ∧ localStorage s' !! STORAGE_KEY = None
   ∧ job s' = None ∧ videoInfo s' = None ∧ error s' = None
   ∧ isLoading s' = false ∧ isPolling s' = false ∧ jobIdRef s' = None)
  ∧ (calm s → timers s' = ∅)
  ∧ (pollingRef s = None →
       timers s' = timers s ∧ trace s' = trace s ∧ awaiting s' = awaiting s)
  ∧ (∀ i jobId j, awaiting s !! i = Some (AwaitPoll jobId) →
       let s'' := step options s' (SettleJob i (Fulfilled (Some j))) in
       job s'' = Some j
       ∧ videoInfo s'' = JobResponse.video_info j
       ∧ pollingRef s'' = None
       ∧ timers s'' = timers s'
       ∧ localStorage s'' !! STORAGE_KEY = None
       ∧ since s' s'' = callbacks options j).
Proof.
  cbn zeta. change (step options s Reset) with (exec reset s).
  rewrite reset_state. split; [|split; [|split]].
  - cbn. repeat split; try apply lookup_delete_eq.
    + rewrite H. apply lookup_without_timer.
    + apply since_app. cbn. rewrite H. reflexivity.
  - intros (Hone & _). cbn. apply without_timer_none. exact Hone.
  - intros Hp. rewrite Hp. cbn. rewrite app_nil_r. auto.
  - intros i jobId j Hi.
    rewrite (step_settle_poll options _ i jobId) by exact Hi.
    destruct (terminal (JobResponse.status j)) eqn:Hterm.
    + rewrite (pollJob_settled_terminal options _ j Hterm). cbn.
      repeat split.
      * destruct (JobResponse.video_info j); reflexivity.
      * rewrite lookup_delete_eq. reflexivity.
      * apply since_app. cbn. rewrite app_nil_r. reflexivity.
    + rewrite (pollJob_settled_progress options _ j Hterm). cbn.
      repeat split.
      * destruct (JobResponse.video_info j); reflexivity.
      * apply lookup_delete_eq.
      * apply since_app. cbn. unfold callbacks.
        destruct (JobResponse.status j); try discriminate Hterm;
          rewrite app_nil_r; reflexivity.
Qed.

(** [reset()] with two polls of "abc" pending, and the answer of the
    first of them afterwards. *)
Lemma C2_reset_and_late_response_witness :
  let s' := Scenario.reset_while_polling in
  let s'' := step Scenario.watched s'
               (SettleJob 0 (Fulfilled (Some Scenario.abc_processing))) in
  job s'' = Some Scenario.abc_processing
  ∧ videoInfo s'' = None
  ∧ pollingRef s'' = None
  ∧ timers s'' = timers s'
  ∧ localStorage s'' !! STORAGE_KEY = None
  ∧ since s' s'' = [].
Proof.
  destruct (C2_reset_and_late_response Scenario.watched Scenario.two_polls_pending)
    as (_ & _ & _ & Hlate).
  apply (Hlate 0%nat "abc" Scenario.abc_processing).
  vm_compute; reflexivity.
Defined.

(** C2 as the specification words it fails: no cancellation flag is
    checked. After [reset()] has cleared the job, the answer of a poll
    that was already pending puts a job back. *)
Lemma C2_late_response_restores_job :
  let s' := Scenario.reset_while_polling in
  let s'' := step Scenario.watched s'
               (SettleJob 0 (Fulfilled (Some Scenario.abc_processing))) in
  job s' = None ∧ job s'' = Some Scenario.abc_processing ∧ job s'' ≠ job s'.
Proof.
  split; [vm_compute; reflexivity|].
  split; [vm_compute; reflexivity|].
  vm_compute. discriminate.
Qed.

(* ===================================================================== *)
(** * A poll request that fails                                           *)
(* ===================================================================== *)

(** C8. When a pending poll request is rejected, the error goes to
    [console.error] and nowhere else: no callback, no change to any state
    cell, ref, timer or the storage. The loop stays active: a live
    interval still polls at its next firing, and a later response with a
    status in progress is stored as usual. *)
Theorem C8_poll_failure_is_swallowed options s i jobId err :
  awaiting s !! i = Some (AwaitPoll jobId) →
  let s' := step options s (SettleJob i (Rejected err)) in
  since s s' = [ConsoleError err]
  ∧ (isLoading s' = isLoading s ∧ isPolling s' = isPolling s
     ∧ job s' = job s ∧ videoInfo s' = videoInfo s ∧ error s' = error s
     ∧ pollingRef s' = pollingRef s ∧ jobIdRef s' = jobIdRef s
     ∧ localStorage s' = localStorage s ∧ timers s' = timers s)
  ∧ (∀ t current, is_Some (timers s !! t) → jobIdRef s = Some current →
       current ≠ "" →
       since s' (step options s' (Tick t)) = [GetJob current])
  ∧ (∀ i' jobId' j, awaiting s' !! i' = Some (AwaitPoll jobId') →
       terminal (JobResponse.status j) = false →
       let s'' := step options s' (SettleJob i' (Fulfilled (Some j))) in
       job s'' = Some j
       ∧ since s' s'' = []
       ∧ isPolling s'' = isPolling s ∧ error s'' = error s
       ∧ pollingRef s'' = pollingRef s ∧ timers s'' = timers s).
Proof.
  intros Hi. cbn zeta.
  rewrite (step_settle_poll options s i jobId) by exact Hi.
  rewrite pollJob_settled_rejected.
  split; [apply since_app; destruct s; reflexivity|].
  split; [destruct s; cbn; repeat split|].
  split.
  - intros t current [ms Ht] Hj Hne.
    match goal with |- since ?a _ = _ => set (s' := a) end.
    assert (Ht' : timers s' !! t = Some ms) by (subst s'; destruct s; exact Ht).
    assert (Hj' : jobIdRef s' = Some current) by (subst s'; destruct s; exact Hj).
    unfold step. rewrite Ht'.
    rewrite (interval_handler_fetches s' current Hj' Hne).
    apply since_app. reflexivity.
  - intros i' jobId' j Hi' Hterm.
    match goal with |- context [step _ ?a _] => set (s' := a) in * end.
    rewrite (step_settle_poll options s' i' jobId') by exact Hi'.
    rewrite (pollJob_settled_progress options _ j Hterm).
    subst s'. destruct s. cbn. repeat split.
    apply since_app. cbn. rewrite app_nil_r. reflexivity.
Qed.

(** The first of the two pending polls of "abc" fails; the second then
    reports "processing". *)
Lemma C8_poll_failure_is_swallowed_witness :
  let s := Scenario.two_polls_pending in
  let s' := step Scenario.watched s
              (SettleJob 0 (Rejected (ThrowError (new_Error "Failed to fetch")))) in
  since s s' = [ConsoleError (ThrowError (new_Error "Failed to fetch"))]
  ∧ timers s' = timers s
  ∧ job (step Scenario.watched s'
           (SettleJob 0 (Fulfilled (Some Scenario.abc_processing))))
    = Some Scenario.abc_processing.
Proof.
  destruct (C8_poll_failure_is_swallowed Scenario.watched
              Scenario.two_polls_pending 0 "abc"
              (ThrowError (new_Error "Failed to fetch")))
    as (Hlog & Hsame & _ & Hnext).
  - vm_compute; reflexivity.
  - split; [exact Hlog|]. split; [apply Hsame|].
    apply (Hnext 0%nat "abc" Scenario.abc_processing).
    + vm_compute; reflexivity.
    + reflexivity.
Defined.

(* ===================================================================== *)
(** * The polling loop                                                    *)
(* ===================================================================== *)

Section Loop.

Variable options : UseExtractOptions.
Variables (t : positive) (ms : Z) (jobId : string).
Hypothesis jobId_nonempty : jobId ≠ "".

Lemma looping_step s input :
  looping t ms jobId s → polls_on t input = true →
  looping t ms jobId (step options s input)
  ∧ ∃ new, trace (step options s input) = trace s ++ new
      ∧ List.filter is_GetJob new
        = (if is_Tick input then [GetJob jobId] else []).
Proof.
  intros (Ht & Hp & Hj & Haw) Hin.
  destruct input as [| | | | |t'|i settled|]; try discriminate Hin.
  - (* the interval fires *)
    cbn in Hin. apply bool_decide_eq_true in Hin. subst t'.
    unfold step. rewrite Ht.
    rewrite (interval_handler_fetches s jobId Hj jobId_nonempty).
    split.
    + unfold looping. cbn. repeat split; try assumption.
      apply Forall_app. split; [exact Haw|]. repeat constructor.
    + exists [GetJob jobId]. split; reflexivity.
  - (* a request settles *)
    destruct (awaiting s !! i) as [a|] eqn:Hi.
    2:{ unfold step. rewrite Hi. split; [repeat split; assumption|].
        exists []. rewrite app_nil_r. split; reflexivity. }
    assert (Ha : starts_no_loop a = true).
    { rewrite Forall_lookup in Haw. exact (Haw i a Hi). }
    destruct a as [polled| | |]; try discriminate Ha.
    2:{ unfold step. rewrite Hi. split; [repeat split; assumption|].
        exists []. rewrite app_nil_r. split; reflexivity. }
    rewrite (step_settle_poll options s i polled) by exact Hi.
    assert (Haw' : Forall (λ a, starts_no_loop a = true) (delete i (awaiting s)))
      by (apply Forall_delete; exact Haw).
    destruct settled as [[j|]|err]; try discriminate Hin.
    + cbn in Hin. apply negb_true_iff in Hin.
      rewrite (pollJob_settled_progress options _ j Hin).
      destruct s. cbn in *. split; [repeat split; assumption|].
      exists []. rewrite app_nil_r. split; reflexivity.
    + rewrite pollJob_settled_rejected.
      destruct s. cbn in *. split; [repeat split; assumption|].
      exists [ConsoleError err]. split; reflexivity.
Qed.

(** The loop goes on under any such inputs, and the requests it issues
    are one per firing of the interval, all for [jobId]. *)
Lemma looping_run inputs : ∀ s,
  looping t ms jobId s → Forall (λ input, polls_on t input = true) inputs →
  looping t ms jobId (run options s inputs)
  ∧ ∃ new, trace (run options s inputs) = trace s ++ new
      ∧ List.filter is_GetJob new = replicate (count_ticks inputs) (GetJob jobId).
Proof.
  induction inputs as [|input inputs IH]; intros s Hs Hall.
  - split; [exact Hs|]. exists []. rewrite app_nil_r. split; reflexivity.
  - apply Forall_cons in Hall as [Hin Hall].
    destruct (looping_step s input Hs Hin) as (Hs1 & new1 & Htr1 & Hf1).
    destruct (IH _ Hs1 Hall) as (Hs2 & new2 & Htr2 & Hf2).
    change (run options s (input :: inputs))
      with (run options (step options s input) inputs).
    split; [exact Hs2|].
    exists (new1 ++ new2). split.
    + rewrite Htr2, Htr1, app_assoc. reflexivity.
    + rewrite List.filter_app, Hf1, Hf2. unfold count_ticks. cbn.
      destruct (is_Tick input); reflexivity.
Qed.

(** A terminal response ends the loop: its timer is cancelled and can
    fire no more. *)
Lemma looping_stops s i polled j :
  looping t ms jobId s → awaiting s !! i = Some (AwaitPoll polled) →
  terminal (JobResponse.status j) = true →
  let s' := step options s (SettleJob i (Fulfilled (Some j))) in
  timers s' !! t = None ∧ step options s' (Tick t) = s'.
Proof.
  intros (Ht & Hp & Hj & Haw) Hi Hterm. cbn zeta.
  rewrite (step_settle_poll options s i polled) by exact Hi.
  rewrite (pollJob_settled_terminal options _ j Hterm).
  assert (Hgone : without_timer (pollingRef s) (timers s) !! t = None)
    by (rewrite Hp; apply lookup_without_timer).
  destruct s. cbn in *. split; [exact Hgone|].
  unfold step. cbn. rewrite Hgone. reflexivity.
Qed.

End Loop.

Lemma startPolling_looping options s jobId :
  Forall (λ a, starts_no_loop a = true) (awaiting s) →
  looping (nextTimer s) (interval options) jobId
    (exec (startPolling options jobId) s).
Proof.
  intros Haw. rewrite startPolling_state. unfold looping. cbn.
  repeat split.
  - apply lookup_insert_eq.
  - apply Forall_app. split; [exact Haw|]. repeat constructor.
Qed.

(** C4, as the code has it. [startPolling] of the persistent hook, for a
    non-empty job identifier, issues one [getJob] at once and registers an
    interval of [pollingInterval] milliseconds, 1000 when the option is
    left out. However the interval then fires and the polls come back
    failed or in progress, the timer stays live and the requests issued
    are that first one plus one per firing, all for the identifier. A
    terminal response cancels the timer, which cannot fire again. The
    earlier hook registers the interval and issues no request at that
    point. *)
Theorem C4_polling_loop options s jobId inputs :
  jobId ≠ "" →
  Forall (λ a, starts_no_loop a = true) (awaiting s) →
  Forall (λ input, polls_on (nextTimer s) input = true) inputs →
  let t := nextTimer s in
  let s1 := exec (startPolling options jobId) s in
  let s2 := run options s1 inputs in
  since s s1 = [GetJob jobId; SetInterval t (interval options)]
  ∧ interval options = default 1000 (pollingInterval options)
  ∧ timers s2 !! t = Some (interval options)
  ∧ List.filter is_GetJob (since s s2)
    = replicate (S (count_ticks inputs)) (GetJob jobId)
  ∧ (∀ i polled j, awaiting s2 !! i = Some (AwaitPoll polled) →
       terminal (JobResponse.status j) = true →
       let s3 := step options s2 (SettleJob i (Fulfilled (Some j))) in
       timers s3 !! t = None ∧ step options s3 (Tick t) = s3)
  ∧ (∀ newJob,
       since s (exec (Legacy.extract_settled options (Fulfilled (Some newJob))) s)
       = [SetInterval t (interval options)]).
Proof.
  intros Hne Haw Hall t s1 s2.
  pose proof (startPolling_looping options s jobId Haw) as Hloop.
  fold s1 t in Hloop.
  destruct (looping_run options t (interval options) jobId Hne inputs s1 Hloop Hall)
    as (Hloop2 & new & Htr & Hf).
  fold s2 in Hloop2, Htr.
  assert (Htr1 : trace s1 = trace s ++ [GetJob jobId; SetInterval t (interval options)]).
  { subst s1 t. rewrite startPolling_state. cbn. rewrite <- app_assoc. reflexivity. }
  split; [apply since_app; exact Htr1|].
  split; [reflexivity|].
  split; [apply Hloop2|].
  split.
  - rewrite (since_app s s2 ([GetJob jobId; SetInterval t (interval options)] ++ new)).
    + rewrite List.filter_app, Hf. reflexivity.
    + rewrite Htr, Htr1, app_assoc. reflexivity.
  - split.
    + intros i polled j Hi Hterm.
      exact (looping_stops options t (interval options) jobId s2 i polled j
               Hloop2 Hi Hterm).
    + intros newJob. apply since_app. destruct s. reflexivity.
Qed.

(** The loop of "abc" from the first render: two firings and a failed
    poll in between give three requests. *)
Lemma C4_polling_loop_witness :
  let s := init ∅ in
  let inputs := [Tick 1%positive;
                 SettleJob 0 (Rejected (ThrowError (new_Error "Failed to fetch")));
                 Tick 1%positive] in
  let s2 := run Scenario.watched (exec (startPolling Scenario.watched "abc") s) inputs in
  timers s2 !! 1%positive = Some 1000
  ∧ List.filter is_GetJob (since s s2) = [GetJob "abc"; GetJob "abc"; GetJob "abc"].
Proof.
  destruct (C4_polling_loop Scenario.watched (init ∅) "abc"
              [Tick 1%positive;
               SettleJob 0 (Rejected (ThrowError (new_Error "Failed to fetch")));
               Tick 1%positive])
    as (_ & _ & Hlive & Hreq & _).
  - discriminate.
  - constructor.
  - repeat constructor.
  - split; [exact Hlive | exact Hreq].
Defined.

(** C4 as the specification words it fails twice. The earlier hook
    starts its loop with the interval alone: no request goes out when the
    job is accepted. And in the persistent hook a loop started for an
    empty [job_id] polls once at its start and never again, since the
    interval's handler tests [jobIdRef.current] for truthiness. *)
Lemma C4_loops_without_fetch :
  (timers Scenario.legacy_accepted !! 1%positive = Some 1000
   ∧ count is_GetJob (trace Scenario.legacy_accepted) = 0%nat)
  ∧ (timers Scenario.empty_id_loop !! 1%positive = Some 1000
     ∧ count is_GetJob (trace Scenario.empty_id_loop) = 1%nat
     ∧ count_ticks [Tick 1%positive; Tick 1%positive] = 2%nat).
Proof. repeat split; vm_compute; reflexivity. Qed.

(* ===================================================================== *)
(** * Resuming at start-up                                                *)
(* ===================================================================== *)

Lemma lookup_first_pending (a : Awaiting) : [a] !! 0%nat = Some a.
Proof. reflexivity. Qed.

(** C3. At the first render the mount effect reads the storage slot.
    With nothing stored it does nothing. With an identifier stored it
    requests that job once, and then: if the request fails the slot is
    emptied and nothing else happens; if the job is in progress the loop
    starts for the stored identifier, which stays stored: the job is
    requested at once, every firing of the interval requests it again,
    and the interval stays live through firings and polls answered in
    progress or failed, until a poll answered with a terminal status
    cancels it; if the job is finished the slot is emptied, no timer is
    registered and no request issued, and [onComplete] is called once
    for "completed" and not at all for "failed". The empty string counts
    as nothing stored. *)
Theorem C3_resume options storage :
  let s0 := init storage in
  let s1 := step options s0 Mount in
  (storage !! STORAGE_KEY = None → s1 = s0)
  ∧ (storage !! STORAGE_KEY = Some "" → s1 = s0)
  ∧ (∀ savedJobId, storage !! STORAGE_KEY = Some savedJobId → savedJobId ≠ "" →
       (trace s1 = [GetJob savedJobId] ∧ awaiting s1 = [AwaitResume savedJobId]
        ∧ timers s1 = ∅ ∧ localStorage s1 = storage)
       ∧ (∀ err,
            let s2 := step options s1 (SettleJob 0 (Rejected err)) in
            localStorage s2 !! STORAGE_KEY = None
            ∧ since s1 s2 = [] ∧ timers s2 = ∅ ∧ pollingRef s2 = None
            ∧ isPolling s2 = false ∧ awaiting s2 = [])
       ∧ (∀ j, terminal (JobResponse.status j) = false →
            let s2 := step options s1 (SettleJob 0 (Fulfilled (Some j))) in
            since s1 s2 = [GetJob savedJobId; SetInterval 1 (interval options)]
            ∧ timers s2 = {[1%positive := interval options]}
            ∧ pollingRef s2 = Some 1%positive
            ∧ jobIdRef s2 = Some savedJobId
            ∧ isPolling s2 = true ∧ job s2 = Some j
            ∧ localStorage s2 !! STORAGE_KEY = Some savedJobId
            ∧ awaiting s2 = [AwaitPoll savedJobId]
            ∧ since s2 (step options s2 (Tick 1%positive)) = [GetJob savedJobId]
            ∧ (∀ inputs,
                 Forall (λ input, polls_on 1%positive input = true) inputs →
                 let s3 := run options s2 inputs in
                 timers s3 !! 1%positive = Some (interval options)
                 ∧ List.filter is_GetJob (since s2 s3)
                   = replicate (count_ticks inputs) (GetJob savedJobId)
                 ∧ (∀ i polled j', awaiting s3 !! i = Some (AwaitPoll polled) →
                      terminal (JobResponse.status j') = true →
                      let s4 := step options s3 (SettleJob i (Fulfilled (Some j'))) in
                      timers s4 !! 1%positive = None
                      ∧ step options s4 (Tick 1%positive) = s4)))
       ∧ (∀ j, terminal (JobResponse.status j) = true →
            onComplete options = true →
            let s2 := step options s1 (SettleJob 0 (Fulfilled (Some j))) in
            localStorage s2 !! STORAGE_KEY = None
            ∧ timers s2 = ∅ ∧ pollingRef s2 = None ∧ isPolling s2 = false
            ∧ job s2 = Some j ∧ awaiting s2 = []
            ∧ since s1 s2 = match JobResponse.status j with
                            | completed => [OnComplete j]
                            | _ => []
                            end
            ∧ count is_OnComplete (since s1 s2)
              = if bool_decide (JobResponse.status j = completed) then 1%nat else 0%nat)).
Proof.
  cbn zeta. change (step options (init storage) Mount) with (exec mount (init storage)).
  split; [|split].
  - intros Hk. apply mount_nothing. cbn. rewrite Hk. reflexivity.
  - intros Hk. apply mount_nothing. cbn. rewrite Hk. reflexivity.
  - intros savedJobId Hk Hne.
    rewrite (mount_state (init storage) savedJobId Hk Hne).
    split; [cbn; auto|].
    split; [|split].
    + intros err.
      rewrite (step_settle_resume options _ 0 savedJobId)
        by apply lookup_first_pending.
      rewrite mount_settled_discard by (right; eauto). cbn.
      repeat split. apply lookup_delete_eq.
    + intros j Hterm.
      set (s2 := step options _ (SettleJob 0 (Fulfilled (Some j)))).
      assert (Hloop : looping 1 (interval options) savedJobId s2).
      { subst s2.
        rewrite (step_settle_resume options _ 0 savedJobId)
          by apply lookup_first_pending.
        rewrite mount_settled_in_progress
          by (rewrite in_progress_terminal, Hterm; reflexivity).
        unfold looping. cbn. repeat split; auto. }
      do 8 (split;
            [subst s2;
             rewrite (step_settle_resume options _ 0 savedJobId)
               by apply lookup_first_pending;
             rewrite mount_settled_in_progress
               by (rewrite in_progress_terminal, Hterm; reflexivity);
             cbn; auto|]).
      split.
      * (* the interval fires *)
        destruct Hloop as (Ht & _ & Hj & _).
        apply since_app. unfold step. rewrite Ht.
        rewrite (interval_handler_fetches s2 savedJobId Hj Hne). reflexivity.
      * (* and goes on firing *)
        intros inputs Hall.
        destruct (looping_run options 1 (interval options) savedJobId Hne
                    inputs s2 Hloop Hall) as (Hloop3 & new & Htr & Hf).
        set (s3 := run options s2 inputs) in *.
        split; [apply Hloop3|].
        split; [rewrite (since_app s2 s3 new Htr); exact Hf|].
        intros i polled j' Hi Hterm'.
        exact (looping_stops options 1 (interval options) savedJobId s3 i polled j'
                 Hloop3 Hi Hterm').
    + intros j Hterm Hc.
      rewrite (step_settle_resume options _ 0 savedJobId)
        by apply lookup_first_pending.
      rewrite mount_settled_finished
        by (rewrite in_progress_terminal, Hterm; reflexivity).
      cbn. rewrite Hc.
      split; [apply lookup_delete_eq|].
      repeat (split; [reflexivity|]).
      destruct (JobResponse.status j); try discriminate Hterm;
        split; reflexivity.
Qed.

(** Job "old" is stored. If the status request finds it completed the
    slot is emptied and [onComplete] called; if it finds it processing,
    the interval's next firing requests "old" again. *)
Lemma C3_resume_witness :
  let s1 := step Scenario.watched (init Scenario.old_stored) Mount in
  let s2 := step Scenario.watched s1 (SettleJob 0 (Fulfilled (Some Scenario.old_completed))) in
  let s2' := step Scenario.watched s1 (SettleJob 0 (Fulfilled (Some Scenario.old_processing))) in
  trace s1 = [GetJob "old"]
  ∧ localStorage s2 !! STORAGE_KEY = None
  ∧ timers s2 = ∅
  ∧ since s1 s2 = [OnComplete Scenario.old_completed]
  ∧ since s2' (step Scenario.watched s2' (Tick 1%positive)) = [GetJob "old"].
Proof.
  destruct (C3_resume Scenario.watched Scenario.old_stored) as (_ & _ & H).
  destruct (H "old") as ((Htr & _) & _ & Hprog & Hdone).
  - reflexivity.
  - discriminate.
  - destruct (Hdone Scenario.old_completed) as (Hk & Ht & _ & _ & _ & _ & Hcb & _).
    + reflexivity.
    + reflexivity.
    + destruct (Hprog Scenario.old_processing)
        as (_ & _ & _ & _ & _ & _ & _ & _ & Htick & _).
      * reflexivity.
      * repeat split; assumption.
Defined.

(* ===================================================================== *)
(** * Submitting a job                                                    *)
(* ===================================================================== *)

Section Submit.

Variable options : UseExtractOptions.

Lemma lookup_last_pending (l : list Awaiting) a : (l ++ [a]) !! length l = Some a.
Proof. apply list_lookup_middle. reflexivity. Qed.

Lemma delete_last_pending (l : list Awaiting) a : delete (length l) (l ++ [a]) = l.
Proof. rewrite delete_middle. apply app_nil_r. Qed.

(** A submission whose request is rejected, start to end. *)
Lemma extract_rejected_state s url format quality err :
  step options (step options s (Extract url format quality))
    (SettleJob (length (awaiting s)) (Rejected err)) =
  {| isLoading := false; isPolling := false; job := None;
     videoInfo := videoInfo s;
     error := Some (message_or err "Error al iniciar extracción");
     pollingRef := None; jobIdRef := jobIdRef s;
     localStorage := localStorage s;
     timers := without_timer (pollingRef s) (timers s);
     nextTimer := nextTimer s; awaiting := awaiting s;
     trace := ((trace s ++ cleared (pollingRef s))
               ++ [StartExtraction url format quality])
              ++ if onError options
                 then [OnError (error_or err (message_or err "Error al iniciar extracción"))]
                 else [] |}.
Proof.
  change (step options s (Extract url format quality))
    with (exec (extract url format quality) s).
  rewrite extract_state.
  rewrite (step_settle_extract options _ (length (awaiting s)))
    by apply lookup_last_pending.
  unfold exec at 1. rewrite extract_settled_rejected. cbn.
  rewrite delete_last_pending. reflexivity.
Qed.

(** A submission whose request is answered with a job, start to end. *)
Lemma extract_accepted_state s url format quality newJob :
  step options (step options s (Extract url format quality))
    (SettleJob (length (awaiting s)) (Fulfilled (Some newJob))) =
  {| isLoading := false; isPolling := true; job := Some newJob;
     videoInfo := videoInfo s; error := None;
     pollingRef := Some (nextTimer s);
     jobIdRef := Some (JobResponse.job_id newJob);
     localStorage := <[STORAGE_KEY := JobResponse.job_id newJob]> (localStorage s);
     timers := <[nextTimer s := interval options]>
                 (without_timer (pollingRef s) (timers s));
     nextTimer := Pos.succ (nextTimer s);
     awaiting := awaiting s ++ [AwaitPoll (JobResponse.job_id newJob)];
     trace := ((((trace s ++ cleared (pollingRef s))
                 ++ [StartExtraction url format quality])
                ++ [GetJob (JobResponse.job_id newJob)])
               ++ [SetInterval (nextTimer s) (interval options)]) |}.
Proof.
  change (step options s (Extract url format quality))
    with (exec (extract url format quality) s).
  rewrite extract_state.
  rewrite (step_settle_extract options _ (length (awaiting s)))
    by apply lookup_last_pending.
  unfold exec at 1. rewrite extract_settled_fulfilled. cbn.
  rewrite delete_last_pending. reflexivity.
Qed.

(** What [extract] does when the service accepts the job: before its own
    request it cancels the timer of the ref and clears job and error;
    afterwards it stores the job, writes its identifier under
    [STORAGE_KEY] and starts the loop. If no timer but that of the ref was
    live at the call, the new loop's timer is the only one. *)
Lemma extract_accepted s url format quality newJob :
  let s1 := step options s (Extract url format quality) in
  let s2 := step options s1
              (SettleJob (length (awaiting s)) (Fulfilled (Some newJob))) in
  (since s s1 = cleared (pollingRef s) ++ [StartExtraction url format quality]
   ∧ pollingRef s1 = None
   ∧ (∀ t, pollingRef s = Some t → timers s1 !! t = None)
   ∧ job s1 = None ∧ error s1 = None ∧ isPolling s1 = false)
  ∧ (job s2 = Some newJob
     ∧ localStorage s2 = <[STORAGE_KEY := JobResponse.job_id newJob]> (localStorage s)
     ∧ since s1 s2 = [GetJob (JobResponse.job_id newJob);
                      SetInterval (nextTimer s) (interval options)]
     ∧ pollingRef s2 = Some (nextTimer s)
     ∧ jobIdRef s2 = Some (JobResponse.job_id newJob)
     ∧ isPolling s2 = true)
  ∧ ((∀ t, is_Some (timers s !! t) → pollingRef s = Some t) →
       timers s2 = {[nextTimer s := interval options]}).
Proof.
  cbn zeta. rewrite extract_accepted_state.
  change (step options s (Extract url format quality))
    with (exec (extract url format quality) s).
  rewrite extract_state. split; [|split].
  - cbn. repeat split.
    + apply since_app. cbn. rewrite <- app_assoc. reflexivity.
    + intros t Hp. rewrite Hp. apply lookup_without_timer.
  - cbn. repeat split. apply since_app. cbn. rewrite <- app_assoc. reflexivity.
  - intros Hone. cbn. rewrite (without_timer_none _ _ Hone). reflexivity.
Qed.

End Submit.

(* ===================================================================== *)
(** * One loop at a time                                                  *)
(* ===================================================================== *)

Lemma starters_app l1 l2 : starters (l1 ++ l2) = (starters l1 + starters l2)%nat.
Proof. unfold starters. rewrite List.filter_app, length_app. reflexivity. Qed.

Lemma starters_delete l i a :
  l !! i = Some a →
  starters l = (starters (delete i l) + if starts_no_loop a then 0 else 1)%nat.
Proof.
  intros Hi. rewrite delete_take_drop.
  rewrite <- (take_drop_middle l i a Hi) at 1.
  rewrite !starters_app. change (a :: drop (S i) l) with ([a] ++ drop (S i) l).
  rewrite starters_app. unfold starters at 2. cbn.
  destruct (starts_no_loop a); cbn; lia.
Qed.

Lemma singleton_is_some (t t' : positive) (ms : Z) :
  is_Some (<[t := ms]> (∅ : gmap positive Z) !! t') → Some t = Some t'.
Proof.
  intros [x Hx]. apply lookup_insert_Some in Hx as [[-> _]|[_ Hx]];
    [reflexivity|]. rewrite lookup_empty in Hx. discriminate.
Qed.

Lemma empty_is_some (current : option positive) (t : positive) :
  is_Some ((∅ : gmap positive Z) !! t) → current = Some t.
Proof. intros H. apply lookup_empty_is_Some in H. contradiction. Qed.

Lemma starters_one a :
  starters [a] = if starts_no_loop a then 0%nat else 1%nat.
Proof. destruct a; reflexivity. Qed.

(** Close a goal [calm s'] for a state [s'] given by its fields. *)
Ltac calm_done :=
  unfold calm; cbn;
  rewrite ?starters_app, ?starters_one; cbn; rewrite ?Nat.add_0_r;
  repeat split; auto; try lia;
  try (intros ?; apply singleton_is_some);
  try apply empty_is_some;
  try (intros ?; lia).

Section OneLoop.

Variable options : UseExtractOptions.

Lemma calm_step s input :
  calm s → unhurried s input → calm (step options s input).
Proof.
  intros (Hone & Hle & Hnone) Hin.
  destruct input as [| |url|url format quality| |t|i settled|i settled].
  - (* Mount *)
    destruct Hin as [Hst Htm].
    destruct s as [? ? ? ? ? current ? storage live ? pending ?]. cbn in *.
    subst live. hook_unfold.
    destruct (storage !! STORAGE_KEY) as [saved|]; [|calm_done].
    destruct (truthy_str (Some saved)); calm_done.
  - (* Unmount *)
    destruct s as [? ? ? ? ? [t0|] ? ? live ? pending ?]; cbn in *;
      [|calm_done].
    hook_unfold. unfold calm. cbn. repeat split; auto.
    + intros t [x Hx]. apply lookup_delete_Some in Hx as [_ Hx]. eauto.
    + intros Hs. rewrite (Hnone Hs). apply delete_empty.
  - (* FetchInfo *)
    destruct s. cbn in *. hook_unfold. calm_done.
  - (* Extract *)
    change (step options s (Extract url format quality))
      with (exec (extract url format quality) s).
    rewrite extract_state. cbn in Hin.
    rewrite (without_timer_none _ _ Hone). calm_done.
  - (* Reset *)
    change (step options s Reset) with (exec reset s).
    rewrite reset_state. rewrite (without_timer_none _ _ Hone). calm_done.
  - (* Tick *)
    unfold step. destruct (timers s !! t); [|unfold calm; auto].
    destruct s as [? ? ? ? ? ? [current|] ? ? ? pending ?]; cbn in *;
      hook_unfold; [|calm_done].
    destruct (truthy_str (Some current)); calm_done.
  - (* SettleJob *)
    destruct (awaiting s !! i) as [a|] eqn:Hi;
      [|unfold step; rewrite Hi; unfold calm; auto].
    pose proof (starters_delete _ _ _ Hi) as Hdel.
    destruct a as [polled|saved| |].
    + (* a poll *)
      rewrite (step_settle_poll options s i polled) by exact Hi.
      cbn in Hdel. rewrite Nat.add_0_r in Hdel.
      destruct settled as [[j|]|err].
      * destruct (terminal (JobResponse.status j)) eqn:Hterm.
        -- rewrite (pollJob_settled_terminal options _ j Hterm).
           destruct s. cbn in *. rewrite (without_timer_none _ _ Hone).
           rewrite Hdel in *. calm_done.
        -- rewrite (pollJob_settled_progress options _ j Hterm).
           destruct s. cbn in *. rewrite Hdel in *. calm_done.
      * destruct s. cbn in *. hook_unfold. rewrite Hdel in *. calm_done.
      * rewrite pollJob_settled_rejected.
        destruct s. cbn in *. rewrite Hdel in *. calm_done.
    + (* the mount effect's request *)
      rewrite (step_settle_resume options s i saved) by exact Hi.
      cbn in Hdel.
      assert (Hst : starters (delete i (awaiting s)) = 0%nat) by lia.
      assert (Htm : timers s = ∅) by (apply Hnone; lia).
      destruct settled as [[j|]|err].
      * destruct (in_progress (JobResponse.status j)) eqn:Hp.
        -- rewrite (mount_settled_in_progress options _ saved j Hp).
           destruct s. cbn in *. subst. calm_done.
        -- rewrite (mount_settled_finished options _ saved j Hp).
           destruct s. cbn in *. subst. calm_done.
      * rewrite mount_settled_discard by (left; reflexivity).
        destruct s. cbn in *. subst. calm_done.
      * rewrite mount_settled_discard by (right; eauto).
        destruct s. cbn in *. subst. calm_done.
    + (* the request of [extract] *)
      rewrite (step_settle_extract options s i) by exact Hi.
      cbn in Hdel.
      assert (Hst : starters (delete i (awaiting s)) = 0%nat) by lia.
      assert (Htm : timers s = ∅) by (apply Hnone; lia).
      destruct settled as [[j|]|err].
      * unfold exec at 1. rewrite extract_settled_fulfilled.
        destruct s. cbn in *. subst. calm_done.
      * destruct s, options as [? ? [|]]; cbn in *; subst; hook_unfold;
          calm_done.
      * unfold exec at 1. rewrite extract_settled_rejected.
        destruct s. cbn in *. subst. calm_done.
    + unfold step. rewrite Hi. unfold calm. auto.
  - (* SettleInfo *)
    unfold step.
    destruct (awaiting s !! i) as [[| | |]|] eqn:Hi; try (unfold calm; auto).
    pose proof (starters_delete _ _ _ Hi) as Hdel.
    cbn in Hdel. rewrite Nat.add_0_r in Hdel.
    destruct s, settled as [info|err]; cbn in *; hook_unfold;
      rewrite Hdel in *; calm_done.
Qed.

(** However the hook is driven, as long as nothing is submitted while a
    request that may start a loop is pending, at most one interval is
    live at any time, and it is the one the ref holds. *)
Theorem one_loop_at_a_time inputs : ∀ s,
  calm s → unhurried_run options s inputs →
  calm (run options s inputs).
Proof.
  induction inputs as [|input inputs IH]; intros s Hs Hrun; [exact Hs|].
  destruct Hrun as [Hin Hrun].
  change (run options s (input :: inputs))
    with (run options (step options s input) inputs).
  apply IH; [apply calm_step; assumption | exact Hrun].
Qed.

Lemma calm_init storage : calm (init storage).
Proof. calm_done. Qed.

Lemma calm_size s : calm s → (size (timers s) ≤ 1)%nat.
Proof.
  intros (Hone & _ & _).
  destruct (map_choose_or_empty (timers s)) as [(t & ms & Ht)| ->];
    [|rewrite map_size_empty; lia].
  assert (Hall : timers s = {[t := ms]}).
  { apply map_eq. intros t'.
    destruct (decide (t = t')) as [<-|Hne].
    - rewrite lookup_singleton_eq. exact Ht.
    - rewrite lookup_singleton_ne by exact Hne.
      destruct (timers s !! t') eqn:Ht'; [|reflexivity].
      pose proof (Hone t (ex_intro _ _ Ht)) as H1.
      pose proof (Hone t' (ex_intro _ _ Ht')) as H2. congruence. }
  rewrite Hall, map_size_singleton. lia.
Qed.

End OneLoop.

(** C5, at an input where the code falls short of it. [extract] cancels
    the timer the ref holds when it is called, and [startPolling] cancels
    none. A loop started while the submission's request was on its way
    (here by the mount effect, resuming job "old") survives the loop the
    submission starts: two intervals are live, the ref holds the second
    only. When job "abc" completes the second is cancelled; the first
    stays live with nothing left that refers to it, and requests the job
    again whenever it fires. *)
Theorem C5_resume_races_submit :
  let s := Scenario.resume_races_submit in
  (timers s = {[1%positive := 1000; 2%positive := 1000]}
   ∧ pollingRef s = Some 2%positive
   ∧ jobIdRef s = Some "abc")
  ∧ let s' := run Scenario.watched s
                [SettleJob 0 (Fulfilled (Some Scenario.old_processing));
                 SettleJob 0 (Fulfilled (Some Scenario.abc_completed))] in
    (timers s' = {[1%positive := 1000]}
     ∧ pollingRef s' = None
     ∧ awaiting s' = []
     ∧ since s' (step Scenario.watched s' (Tick 1%positive)) = [GetJob "abc"]
     ∧ timers (step Scenario.watched s' Reset) = {[1%positive := 1000]}).
Proof. repeat split; vm_compute; reflexivity. Qed.

(** C6. When the request of [extract] is rejected, the promise of
    [extract] resolves to [null], the error's message is put in [error]
    and [onError] is called once with the error; no job is held, neither
    flag is set, no timer is registered and no status request issued. *)
Theorem C6_extract_rejected options s url format quality err :
  onError options = true →
  let s1 := step options s (Extract url format quality) in
  let s2 := step options s1 (SettleJob (length (awaiting s)) (Rejected err)) in
  let message := message_or err "Error al iniciar extracción" in
  eval (extract_settled options (Rejected err)) s1 = None
  ∧ error s2 = Some message
  ∧ since s1 s2 = [OnError (error_or err message)]
  ∧ (∀ e, err = ThrowError e → message = Js.message e
          ∧ since s1 s2 = [OnError e])
  ∧ job s2 = None
  ∧ isLoading s2 = false ∧ isPolling s2 = false
  ∧ pollingRef s2 = None
  ∧ timers s2 = timers s1
  ∧ count is_SetInterval (since s s2) = 0%nat
  ∧ count is_GetJob (since s s2) = 0%nat.
Proof.
  intros He. cbn zeta. rewrite extract_rejected_state.
  change (step options s (Extract url format quality))
    with (exec (extract url format quality) s).
  rewrite extract_state. rewrite He.
  split; [unfold eval; rewrite extract_settled_rejected; reflexivity|].
  split; [reflexivity|].
  split; [apply since_app; reflexivity|].
  split; [intros e ->; split; [reflexivity|apply since_app; reflexivity]|].
  repeat (split; [reflexivity|]).
  split.
  - erewrite since_app by (cbn; rewrite <- !app_assoc; reflexivity).
    rewrite count_app. destruct (pollingRef s); reflexivity.
  - erewrite since_app by (cbn; rewrite <- !app_assoc; reflexivity).
    rewrite count_app. destruct (pollingRef s); reflexivity.
Qed.

(** A first submission is refused by the service with a 400. *)
Lemma C6_extract_rejected_witness :
  let err := ThrowError (new_Error "URL no soportada") in
  let s1 := step Scenario.watched (init ∅)
              (Extract "https://example.com/v" mp3 q192) in
  let s2 := step Scenario.watched s1 (SettleJob 0 (Rejected err)) in
  error s2 = Some "URL no soportada"
  ∧ since s1 s2 = [OnError (new_Error "URL no soportada")]
  ∧ job s2 = None
  ∧ timers s2 = ∅.
Proof.
  destruct (C6_extract_rejected Scenario.watched (init ∅)
              "https://example.com/v" mp3 q192
              (ThrowError (new_Error "URL no soportada")))
    as (_ & Herr & Hcb & _ & Hjob & _ & _ & _ & Htm & _).
  - reflexivity.
  - repeat split; assumption.
Defined.

(** C10. A submission whose request is rejected leaves [localStorage] as
    it found it: an identifier stored by an earlier job is still there,
    and the mount effect of a later page load over that storage does what
    it would have done before the submission, which for a non-empty
    identifier is to request that job's status. *)
Theorem C10_rejected_extract_keeps_storage options s url format quality err :
  let s1 := step options s (Extract url format quality) in
  let s2 := step options s1 (SettleJob (length (awaiting s)) (Rejected err)) in
  localStorage s1 = localStorage s
  ∧ localStorage s2 = localStorage s
  ∧ step options (init (localStorage s2)) Mount
    = step options (init (localStorage s)) Mount
  ∧ (∀ savedJobId, localStorage s !! STORAGE_KEY = Some savedJobId →
       localStorage s2 !! STORAGE_KEY = Some savedJobId
       ∧ (savedJobId ≠ "" →
            let s3 := step options (init (localStorage s2)) Mount in
            trace s3 = [GetJob savedJobId]
            ∧ awaiting s3 = [AwaitResume savedJobId])).
Proof.
  cbn zeta. rewrite extract_rejected_state.
  change (step options s (Extract url format quality))
    with (exec (extract url format quality) s).
  rewrite extract_state. cbn [localStorage].
  repeat (split; [reflexivity|]).
  intros savedJobId Hk. split; [exact Hk|]. intros Hne.
  change (step options (init (localStorage s)) Mount)
    with (exec mount (init (localStorage s))).
  rewrite (mount_state (init (localStorage s)) savedJobId Hk Hne).
  split; reflexivity.
Qed.

(** Job "old" is stored and being polled when a second submission is
    refused; the next page load asks for "old" again. *)
Lemma C10_rejected_extract_keeps_storage_witness :
  let s := step Scenario.watched
             (step Scenario.watched (init Scenario.old_stored) Mount)
             (SettleJob 0 (Fulfilled (Some Scenario.old_processing))) in
  let s2 := run Scenario.watched s
              [Extract "https://example.com/v" mp3 q192;
               SettleJob 1 (Rejected (ThrowError (new_Error "URL no soportada")))] in
  localStorage s2 !! STORAGE_KEY = Some "old"
  ∧ trace (step Scenario.watched (init (localStorage s2)) Mount) = [GetJob "old"].
Proof.
  set (s := step Scenario.watched
              (step Scenario.watched (init Scenario.old_stored) Mount)
              (SettleJob 0 (Fulfilled (Some Scenario.old_processing)))).
  destruct (C10_rejected_extract_keeps_storage Scenario.watched s
              "https://example.com/v" mp3 q192
              (ThrowError (new_Error "URL no soportada")))
    as (_ & _ & _ & H).
  destruct (H "old") as (Hk & Hresume); [vm_compute; reflexivity|].
  split; [exact Hk|]. apply Hresume. discriminate.
Defined.

(* ===================================================================== *)
(** * A job that failed                                                   *)
(* ===================================================================== *)

Lemma failure_message_nonempty j e :
  result_error j = Some e → e ≠ "" → failure_message j = e.
Proof.
  intros Hr Hne. unfold failure_message, str_or. rewrite Hr.
  destruct (String.eqb_spec e ""); [contradiction|reflexivity].
Qed.

Lemma failure_message_fallback j :
  result_error j = None ∨ result_error j = Some "" → failure_message j = "Error".
Proof. intros [Hr|Hr]; unfold failure_message; rewrite Hr; reflexivity. Qed.

(** C7, as the code has it. A poll response with status "failed" calls
    [onError] once, with [result.error] as the message when it is there
    and not empty, and with "Error" when it is missing or empty; the
    storage slot is emptied, the timer of the ref is cancelled and the
    ref cleared. *)
Theorem C7_failed_job options s i jobId j :
  onError options = true →
  awaiting s !! i = Some (AwaitPoll jobId) →
  JobResponse.status j = failed →
  let s' := step options s (SettleJob i (Fulfilled (Some j))) in
  since s s' = cleared (pollingRef s) ++ [OnError (new_Error (failure_message j))]
  ∧ (∀ e, result_error j = Some e → e ≠ "" → failure_message j = e)
  ∧ (result_error j = None ∨ result_error j = Some "" →
       failure_message j = "Error")
  ∧ (result_error j = Some "Video too long" →
       count is_OnError (since s s') = 1%nat
       ∧ OnError (new_Error "Video too long") ∈ since s s')
  ∧ localStorage s' !! STORAGE_KEY = None
  ∧ pollingRef s' = None
  ∧ (∀ t, pollingRef s = Some t →
       timers s' !! t = None ∧ ClearInterval t ∈ since s s')
  ∧ isPolling s' = false.
Proof.
  intros He Hi Hst. cbn zeta.
  rewrite (step_settle_poll options s i jobId) by exact Hi.
  assert (Hterm : terminal (JobResponse.status j) = true) by (rewrite Hst; reflexivity).
  rewrite (pollJob_settled_terminal options _ j Hterm).
  assert (Hcb : callbacks options j = [OnError (new_Error (failure_message j))])
    by (unfold callbacks; rewrite Hst, He; reflexivity).
  rewrite Hcb.
  match goal with |- since s ?x = _ ∧ _ => set (s' := x) end.
  assert (Hsince : since s s'
            = cleared (pollingRef s) ++ [OnError (new_Error (failure_message j))]).
  { apply since_app. subst s'. destruct s. cbn. rewrite <- app_assoc. reflexivity. }
  rewrite Hsince.
  split; [reflexivity|].
  split; [intros e; apply failure_message_nonempty|].
  split; [apply failure_message_fallback|].
  split.
  { intros Hr. rewrite (failure_message_nonempty j _ Hr) by discriminate.
    split.
    - rewrite count_app. destruct (pollingRef s); reflexivity.
    - apply elem_of_app. right. apply list_elem_of_singleton. reflexivity. }
  subst s'. destruct s as [? ? ? ? ? current ? ? ? ? ? ?]. cbn.
  split; [apply lookup_delete_eq|].
  split; [reflexivity|].
  split; [|reflexivity].
  intros t ->. split; [apply lookup_without_timer|].
  apply elem_of_app. left. apply list_elem_of_singleton. reflexivity.
Qed.

(** The service reports "abc" failed: the video is too long. *)
Lemma C7_failed_job_witness :
  let s := Scenario.two_polls_pending in
  let s' := step Scenario.watched s (SettleJob 0 (Fulfilled (Some Scenario.abc_too_long))) in
  since s s' = [ClearInterval 1; OnError (new_Error "Video too long")]
  ∧ localStorage s' !! STORAGE_KEY = None
  ∧ timers s' !! 1%positive = None.
Proof.
  destruct (C7_failed_job Scenario.watched Scenario.two_polls_pending 0 "abc"
              Scenario.abc_too_long)
    as (Hsince & _ & _ & _ & Hk & _ & Htimer & _).
  - reflexivity.
  - vm_compute; reflexivity.
  - reflexivity.
  - split; [exact Hsince|]. split; [exact Hk|].
    apply (Htimer 1%positive). vm_compute; reflexivity.
Defined.

(** C7 as the specification words it fails on an empty message: the job
    carries [result.error], the empty string, and [onError] receives
    "Error" instead. *)
Lemma C7_empty_error_message :
  let j := Scenario.abc_failed_silently in
  let s := Scenario.two_polls_pending in
  let s' := step Scenario.watched s (SettleJob 0 (Fulfilled (Some j))) in
  result_error j = Some ""
  ∧ since s s' = [ClearInterval 1; OnError (new_Error "Error")]
  ∧ new_Error "Error" ≠ new_Error "".
Proof.
  split; [reflexivity|]. split; [vm_compute; reflexivity|]. discriminate.
Qed.

(* ===================================================================== *)
(** * The API client's errors                                             *)
(* ===================================================================== *)

Lemma error_of_or_string d fallback :
  d ≠ "" → error_of_or (Some (JStr d)) fallback = new_Error d.
Proof.
  intros Hne. unfold error_of_or, truthy.
  destruct (String.eqb_spec d ""); [contradiction|reflexivity].
Qed.

Lemma error_of_or_falsy o fallback :
  truthy o = false → error_of_or o fallback = new_Error fallback.
Proof. intros Hf. unfold error_of_or. rewrite Hf. reflexivity. Qed.

(** C9, as the code has it. For a response that is not [ok], both
    clients reject with an error whose message is the body's [detail]
    itself when that is a non-empty string; "Error desconocido" when the
    body is not JSON; and their generic message ("HTTP" and the status
    for [request], "Error en la solicitud" for [handleResponse]) when the
    body has no [detail] or a falsy one, the empty string included. *)
Theorem C9_error_message response :
  Api.ok response = false →
  (∀ body d, Api.json response = Fulfilled body →
     detail_of body = inr (Some (JStr d)) → d ≠ "" →
     Api.request (Api.Responded response) = Rejected (ThrowError (new_Error d))
     ∧ Api.handleResponse response
       = Rejected (ThrowError (Api.new_ApiError (Api.status response) d)))
  ∧ (∀ e, Api.json response = Rejected e →
     Api.request (Api.Responded response)
     = Rejected (ThrowError (new_Error "Error desconocido"))
     ∧ Api.handleResponse response
       = Rejected (ThrowError
           (Api.new_ApiError (Api.status response) "Error desconocido")))
  ∧ (∀ body d, Api.json response = Fulfilled body →
     detail_of body = inr d → truthy d = false →
     Api.request (Api.Responded response)
     = Rejected (ThrowError
         (new_Error ("HTTP " +:+ pretty (Api.status response))))
     ∧ Api.handleResponse response
       = Rejected (ThrowError
           (Api.new_ApiError (Api.status response) "Error en la solicitud"))).
Proof.
  intros Hok. unfold Api.request, Api.handleResponse, Api.json_or_unknown.
  rewrite Hok. cbn [negb].
  split; [|split].
  - intros body d Hj Hd Hne. rewrite Hj, Hd.
    rewrite !(error_of_or_string d _ Hne). split; reflexivity.
  - intros e Hj. rewrite Hj. split; reflexivity.
  - intros body d Hj Hd Hf. rewrite Hj, Hd.
    rewrite !(error_of_or_falsy d _ Hf). split; reflexivity.
Qed.

(** A 404 whose body says which job was not found. *)
Lemma C9_error_message_witness :
  Api.request (Api.Responded
    (Scenario.refused 404 (JObj [("detail", JStr "Job not found")])))
  = Rejected (ThrowError (new_Error "Job not found")).
Proof.
  destruct (C9_error_message
              (Scenario.refused 404 (JObj [("detail", JStr "Job not found")])))
    as (Hdetail & _ & _); [reflexivity|].
  apply (Hdetail (JObj [("detail", JStr "Job not found")]) "Job not found");
    [reflexivity | reflexivity | discriminate].
Defined.

(** C9 as the specification words it fails where [detail] is not a
    non-empty string. The list of validation errors of a 422 reaches the
    caller as "[object Object]", and an empty [detail] is replaced by the
    generic message. *)
Lemma C9_detail_not_verbatim :
  (detail_of Scenario.validation_errors
   = inr (member "detail" [("detail",
            JArr [JObj [("loc", JArr [JStr "body"; JStr "url"]);
                        ("msg", JStr "field required");
                        ("type", JStr "value_error.missing")]])])
   ∧ Api.request (Api.Responded (Scenario.refused 422 Scenario.validation_errors))
     = Rejected (ThrowError (new_Error "[object Object]")))
  ∧ (detail_of (JObj [("detail", JStr "")]) = inr (Some (JStr ""))
     ∧ Api.request (Api.Responded (Scenario.refused 500 (JObj [("detail", JStr "")])))
       = Rejected (ThrowError (new_Error "HTTP 500"))
     ∧ new_Error "HTTP 500" ≠ new_Error "").
Proof.
  repeat split; try (vm_compute; reflexivity). discriminate.
Qed.

(* ===================================================================== *)
(** * What any run of the hook keeps                                      *)
(* ===================================================================== *)

Import Observe.

(** Close the storage, ref and trace goals of a step given by its fields. *)
Ltac summary_rest :=
  cbn;
  repeat match goal with
  | |- _ ∧ _ => split
  | |- Forall _ [] => constructor
  | |- Forall _ (_ :: _) => constructor
  | |- tidy _ _ _ _ => cbn; auto
  | |- ref_follows _ _ _ =>
      unfold ref_follows; cbn;
      first [ left; reflexivity
            | right; left; reflexivity
            | right; right; eexists; split; [reflexivity|];
              repeat first [ apply list_elem_of_here | apply list_elem_of_further ] ]
  | |- ∀ k, k ≠ STORAGE_KEY → _ =>
      let k := fresh "k" in let Hk := fresh "Hk" in
      intros k Hk; cbn;
      rewrite ?lookup_delete_ne, ?lookup_insert_ne by (intros ?; apply Hk; auto);
      reflexivity
  end; auto.

Ltac summary_done :=
  first
    [ exists []; split; [cbn; rewrite app_nil_r; reflexivity|]; summary_rest
    | eexists; split; [cbn; rewrite <- ?app_assoc; reflexivity|]; summary_rest ].

Section Summary.

Variable options : UseExtractOptions.

(** What one step of the event loop does, whatever the input. *)
Lemma step_summary s input :
  ∃ new,
    trace (step options s input) = trace s ++ new
    ∧ Forall (tidy options s (step options s input)) new
    ∧ ref_follows s (step options s input) new
    ∧ (∀ k, k ≠ STORAGE_KEY →
         localStorage (step options s input) !! k = localStorage s !! k).
Proof.
  destruct s as [ld pl jb vi er ref jid st tm nt aw tr].
  destruct options as [ms oc oe] eqn:Hopt.
  destruct input as [| |url|url format quality| |t|i settled|i settled];
    unfold step; cbn [timers awaiting].
  - hook_unfold. destruct (st !! STORAGE_KEY) as [saved|]; [|summary_done].
    destruct (truthy_str (Some saved)); summary_done.
  - destruct ref; hook_unfold; summary_done.
  - hook_unfold; summary_done.
  - destruct ref; hook_unfold; summary_done.
  - destruct ref; hook_unfold; summary_done.
  - destruct (tm !! t); [|summary_done].
    destruct jid as [current|]; hook_unfold; [|summary_done].
    destruct (truthy_str (Some current)); summary_done.
  - destruct (aw !! i) as [[polled|saved| |]|]; try summary_done.
    + destruct settled as [[j|]|err]; hook_unfold; try summary_done.
      destruct (JobResponse.status j) eqn:Hst, (JobResponse.video_info j),
        ref, oc, oe; summary_done.
    + destruct settled as [[j|]|err]; hook_unfold; try summary_done.
      rewrite in_progress_terminal.
      destruct (JobResponse.status j) eqn:Hst, (JobResponse.video_info j),
        oc; cbn; summary_done.
    + destruct settled as [[j|]|err], oe; hook_unfold; summary_done.
  - destruct (aw !! i) as [[polled|saved| |]|]; try summary_done.
    destruct settled; hook_unfold; summary_done.
Qed.

End Summary.

Section Runs.

Variable options : UseExtractOptions.

Lemma run_cons s input inputs :
  run options s (input :: inputs) = run options (step options s input) inputs.
Proof. reflexivity. Qed.

Lemma tidy_permitted s s' e : tidy options s s' e → permitted options e.
Proof. destruct e; cbn; auto. Qed.

(** X1. Whatever the hook is put through, it leaves every key of
    [localStorage] but its own as it was. *)
Theorem storage_other_keys inputs : ∀ s k,
  k ≠ STORAGE_KEY →
  localStorage (run options s inputs) !! k = localStorage s !! k.
Proof.
  induction inputs as [|input inputs IH]; intros s k Hk; [reflexivity|].
  rewrite run_cons, (IH _ k Hk).
  destruct (step_summary options s input) as (new & _ & _ & _ & Hst).
  exact (Hst k Hk).
Qed.

(** X2. In any run, a callback that was not supplied is never called,
    and [onComplete] is only ever called with a job whose status is
    "completed". *)
Theorem callbacks_permitted inputs : ∀ s,
  Forall (permitted options) (since s (run options s inputs)).
Proof.
  assert (H : ∀ inputs s, ∃ new,
             trace (run options s inputs) = trace s ++ new
             ∧ Forall (permitted options) new).
  { clear inputs. induction inputs as [|input inputs IH]; intros s.
    - exists []. rewrite app_nil_r. split; [reflexivity|constructor].
    - rewrite run_cons.
      destruct (step_summary options s input) as (new1 & Htr1 & Hok1 & _).
      destruct (IH (step options s input)) as (new2 & Htr2 & Hok2).
      exists (new1 ++ new2). split.
      + rewrite Htr2, Htr1, app_assoc. reflexivity.
      + apply Forall_app. split; [|exact Hok2].
        eapply Forall_impl; [exact Hok1|]. intros e. apply tidy_permitted. }
  intros s. destruct (H inputs s) as (new & Htr & Hok).
  rewrite (since_app _ _ _ Htr). exact Hok.
Qed.

Lemma own_timers_step s input :
  own_timers s → own_timers (step options s input).
Proof.
  intros [Href Hclr].
  destruct (step_summary options s input) as (new & Htr & Hok & Hfol & _).
  split.
  - intros t Ht. rewrite Htr.
    destruct Hfol as [Hsame|[Hnone|(ms & Hnew & Hin)]].
    + rewrite Hsame in Ht. destruct (Href t Ht) as [ms Hms].
      exists ms. apply elem_of_app. left. exact Hms.
    + rewrite Hnone in Ht. discriminate.
    + rewrite Hnew in Ht. injection Ht as <-.
      exists ms. apply elem_of_app. right. exact Hin.
  - intros t Ht. rewrite Htr in Ht |- *.
    apply elem_of_app in Ht as [Ht|Ht].
    + destruct (Hclr t Ht) as [ms Hms].
      exists ms. apply elem_of_app. left. exact Hms.
    + rewrite Forall_forall in Hok. specialize (Hok _ Ht). cbn in Hok.
      destruct (Href t Hok) as [ms Hms].
      exists ms. apply elem_of_app. left. exact Hms.
Qed.

(** X3. From its first render on, the hook only ever passes to
    [clearInterval] a timer that its own [setInterval] returned earlier
    in the run, and its ref never holds any other. *)
Theorem clears_own_timers storage inputs :
  own_timers (run options (init storage) inputs).
Proof.
  assert (H : ∀ inputs s, own_timers s → own_timers (run options s inputs)).
  { clear inputs. induction inputs as [|input inputs IH]; intros s Hs; [exact Hs|].
    rewrite run_cons. apply IH, own_timers_step, Hs. }
  apply H. split; intros t Ht; [discriminate Ht|].
  cbn in Ht. apply elem_of_nil in Ht. contradiction.
Qed.

End Runs.

(** A value another script of the page keeps in the storage, across a
    whole job. *)
Lemma storage_other_keys_witness :
  localStorage (run Scenario.watched (init {["theme" := "dark"]}) Scenario.whole_job)
    !! "theme" = Some "dark".
Proof.
  rewrite (storage_other_keys Scenario.watched Scenario.whole_job
             (init {["theme" := "dark"]}) "theme"); [reflexivity|discriminate].
Defined.


(* ===================================================================== *)
(** * After the job is over                                               *)
(* ===================================================================== *)

Lemma starters_delete_poll l i polled :
  l !! i = Some (AwaitPoll polled) → starters (delete i l) = starters l.
Proof. intros Hi. rewrite (starters_delete l i _ Hi). cbn. lia. Qed.

Lemma starters_delete_info l i :
  l !! i = Some AwaitInfo → starters (delete i l) = starters l.
Proof. intros Hi. rewrite (starters_delete l i _ Hi). cbn. lia. Qed.

(** Close a goal about an idle step given by its fields. *)
Ltac idle_done :=
  split;
  [ unfold idle; cbn; split; auto; apply delete_empty
  | first
      [ exists []; split; [cbn; rewrite app_nil_r; reflexivity|constructor]
      | eexists; split; [cbn; rewrite <- ?app_assoc; reflexivity|];
        repeat constructor ] ].

Section Idle.

Variable options : UseExtractOptions.

Lemma idle_step s input :
  idle s → from_outside input = false →
  idle (step options s input)
  ∧ ∃ new, trace (step options s input) = trace s ++ new
      ∧ Forall (λ e, is_request e = false) new.
Proof.
  intros [Htm Hst] Hin.
  destruct input as [| |url|url format quality| |t|i settled|i settled];
    try discriminate Hin; unfold step.
  - (* Unmount *)
    destruct s as [? ? ? ? ? [t|] ? ? ? ? ? ?]; cbn in *; subst;
      hook_unfold; idle_done.
  - (* Reset *)
    destruct s as [? ? ? ? ? [t|] ? ? ? ? ? ?]; cbn in *; subst;
      hook_unfold; idle_done.
  - (* Tick *)
    rewrite Htm, lookup_empty. split; [split; assumption|].
    exists []. rewrite app_nil_r. split; [reflexivity|constructor].
  - (* SettleJob *)
    destruct (awaiting s !! i) as [[polled|saved| |]|] eqn:Hi.
    + pose proof (starters_delete_poll _ _ _ Hi) as Hdel. rewrite Hst in Hdel.
      destruct s as [? ? ? ? ? ref ? ? ? ? ? ?]. cbn in *. subst.
      destruct settled as [[j|]|err]; hook_unfold; try idle_done.
      destruct options as [? [|] [|]], (JobResponse.status j),
        (JobResponse.video_info j), ref; idle_done.
    + pose proof (starters_delete _ _ _ Hi) as Hdel. cbn in Hdel. lia.
    + pose proof (starters_delete _ _ _ Hi) as Hdel. cbn in Hdel. lia.
    + split; [split; assumption|].
      exists []. rewrite app_nil_r. split; [reflexivity|constructor].
    + split; [split; assumption|].
      exists []. rewrite app_nil_r. split; [reflexivity|constructor].
  - (* SettleInfo *)
    destruct (awaiting s !! i) as [[polled|saved| |]|] eqn:Hi;
      try (split; [split; assumption|];
           exists []; rewrite app_nil_r; split; [reflexivity|constructor]).
    pose proof (starters_delete_info _ _ Hi) as Hdel. rewrite Hst in Hdel.
    destruct s. cbn in *. subst. destruct settled; hook_unfold; idle_done.
Qed.

Lemma idle_run inputs : ∀ s,
  idle s → Forall (λ input, from_outside input = false) inputs →
  idle (run options s inputs)
  ∧ ∃ new, trace (run options s inputs) = trace s ++ new
      ∧ Forall (λ e, is_request e = false) new.
Proof.
  induction inputs as [|input inputs IH]; intros s Hs Hall.
  - split; [exact Hs|]. exists []. rewrite app_nil_r.
    split; [reflexivity|constructor].
  - apply Forall_cons in Hall as [Hin Hall]. rewrite run_cons.
    destruct (idle_step s input Hs Hin) as (Hs1 & new1 & Htr1 & Hno1).
    destruct (IH _ Hs1 Hall) as (Hs2 & new2 & Htr2 & Hno2).
    split; [exact Hs2|]. exists (new1 ++ new2). split.
    + rewrite Htr2, Htr1, app_assoc. reflexivity.
    + apply Forall_app. auto.
Qed.

End Idle.

(** X4. Once a poll has reported a terminal status to a hook with one
    loop and no submission or resumption pending, no interval is live
    and, whatever intervals fire and requests settle afterwards and
    whether [reset()] is called or the component unmounts, the hook sends
    no request and registers no timer until the caller submits, looks a
    video up or the page mounts the hook again. *)
Theorem quiet_after_terminal options s i polled j inputs :
  calm s →
  starters (awaiting s) = 0%nat →
  awaiting s !! i = Some (AwaitPoll polled) →
  terminal (JobResponse.status j) = true →
  Forall (λ input, from_outside input = false) inputs →
  let s1 := step options s (SettleJob i (Fulfilled (Some j))) in
  let s2 := run options s1 inputs in
  timers s1 = ∅ ∧ timers s2 = ∅
  ∧ Forall (λ e, is_request e = false) (since s s2).
Proof.
  intros (Hone & _ & _) Hst Hi Hterm Hall s1 s2.
  assert (Hidle : idle s1 ∧ ∃ new1, trace s1 = trace s ++ new1
                    ∧ Forall (λ e, is_request e = false) new1).
  { subst s1. rewrite (step_settle_poll options s i polled) by exact Hi.
    rewrite (pollJob_settled_terminal options _ j Hterm).
    pose proof (starters_delete_poll _ _ _ Hi) as Hdel.
    pose proof (without_timer_none _ _ Hone) as Hnone.
    destruct s as [? ? ? ? ? ref ? ? ? ? ? ?]. cbn in *.
    split; [split; [exact Hnone|cbn; lia]|].
    exists (cleared ref ++ callbacks options j). split.
    - rewrite app_assoc. reflexivity.
    - apply Forall_app. split.
      + destruct ref; repeat constructor.
      + unfold callbacks.
        destruct (JobResponse.status j), (onComplete options), (onError options);
          repeat constructor. }
  destruct Hidle as (Hidle & new1 & Htr1 & Hno1).
  destruct (idle_run options inputs s1 Hidle Hall) as (Hidle2 & new2 & Htr2 & Hno2).
  fold s2 in Hidle2, Htr2.
  split; [apply Hidle|]. split; [apply Hidle2|].
  rewrite (since_app s s2 (new1 ++ new2)).
  - apply Forall_app. auto.
  - rewrite Htr2, Htr1, app_assoc. reflexivity.
Qed.

(** Job "abc" completes; an interval that is gone fires, the caller
    resets and the component unmounts. *)
Lemma quiet_after_terminal_witness :
  let s := run Scenario.watched (init ∅)
             [Extract "https://youtube.com/watch?v=XYZ" mp3 q192;
              SettleJob 0 (Fulfilled (Some Scenario.abc_pending))] in
  let s1 := step Scenario.watched s (SettleJob 0 (Fulfilled (Some Scenario.abc_completed))) in
  let s2 := run Scenario.watched s1 [Tick 1%positive; Reset; Unmount] in
  timers s1 = ∅ ∧ timers s2 = ∅
  ∧ Forall (λ e, is_request e = false) (since s s2).
Proof.
  apply (quiet_after_terminal Scenario.watched _ 0 "abc" Scenario.abc_completed
           [Tick 1%positive; Reset; Unmount]).
  - apply (one_loop_at_a_time Scenario.watched
             [Extract "https://youtube.com/watch?v=XYZ" mp3 q192;
              SettleJob 0 (Fulfilled (Some Scenario.abc_pending))] (init ∅)).
    + apply calm_init.
    + cbn. repeat split; reflexivity.
  - vm_compute; reflexivity.
  - vm_compute; reflexivity.
  - reflexivity.
  - repeat constructor.
Defined.

(* ===================================================================== *)
(** * Looking a video up                                                  *)
(* ===================================================================== *)

Lemma step_settle_info options s i settled :
  awaiting s !! i = Some AwaitInfo →
  step options s (SettleInfo i settled)
  = exec (fetchInfo_settled settled) (exec (with_awaiting (delete i)) s).
Proof.
  intros Hi. unfold step. rewrite Hi. rewrite exec_bind. reflexivity.
Qed.

(** X5. [fetchInfo] clears the metadata and the error before its request
    and leaves [isLoading] false after it. A lookup that fails leaves no
    metadata, puts the error's message (or "Error al obtener
    información") in [error] and resolves to [null], without calling
    [onError]; one that succeeds stores what it got. Either way the job,
    the polling flag, both refs, the timers and the storage stay as they
    were. *)
Theorem fetchInfo_outcome options s url settled :
  let s1 := step options s (FetchInfo url) in
  let s2 := step options s1 (SettleInfo (length (awaiting s)) settled) in
  (since s s1 = [GetVideoInfo url]
   ∧ videoInfo s1 = None ∧ error s1 = None ∧ isLoading s1 = true)
  ∧ (since s1 s2 = [] ∧ isLoading s2 = false)
  ∧ (∀ info, settled = Fulfilled info →
       videoInfo s2 = info ∧ error s2 = None
       ∧ eval (fetchInfo_settled settled) s1 = info)
  ∧ (∀ err, settled = Rejected err →
       videoInfo s2 = None
       ∧ error s2 = Some (message_or err "Error al obtener información")
       ∧ eval (fetchInfo_settled settled) s1 = None)
  ∧ (job s2 = job s ∧ isPolling s2 = isPolling s
     ∧ pollingRef s2 = pollingRef s ∧ jobIdRef s2 = jobIdRef s
     ∧ timers s2 = timers s ∧ localStorage s2 = localStorage s
     ∧ awaiting s2 = awaiting s).
Proof.
  cbn zeta.
  assert (Hs1 : step options s (FetchInfo url) =
    {| isLoading := true; isPolling := isPolling s; job := job s;
       videoInfo := None; error := None; pollingRef := pollingRef s;
       jobIdRef := jobIdRef s; localStorage := localStorage s;
       timers := timers s; nextTimer := nextTimer s;
       awaiting := awaiting s ++ [AwaitInfo];
       trace := trace s ++ [GetVideoInfo url] |}) by (destruct s; reflexivity).
  rewrite Hs1.
  rewrite (step_settle_info options _ (length (awaiting s)))
    by apply lookup_last_pending.
  split; [repeat split; apply since_app; reflexivity|].
  destruct settled as [info|err], s; hook_unfold; cbn;
    rewrite delete_last_pending.
  - split; [split; [apply since_app; cbn; rewrite app_nil_r|]; reflexivity|].
    split; [intros ? [= <-]; auto|]. split; [discriminate|]. repeat split.
  - split; [split; [apply since_app; cbn; rewrite app_nil_r|]; reflexivity|].
    split; [discriminate|]. split; [intros ? [= <-]; auto|]. repeat split.
Qed.

(** A lookup fails while job "abc" is being polled. *)
Lemma fetchInfo_outcome_witness :
  let s := Scenario.two_polls_pending in
  let s2 := run Scenario.watched s
              [FetchInfo "https://vimeo.com/1";
               SettleInfo 2 (Rejected (ThrowError (new_Error "Video no encontrado")))] in
  videoInfo s2 = None
  ∧ error s2 = Some "Video no encontrado"
  ∧ timers s2 = timers s.
Proof.
  destruct (fetchInfo_outcome Scenario.watched Scenario.two_polls_pending
              "https://vimeo.com/1"
              (Rejected (ThrowError (new_Error "Video no encontrado"))))
    as (_ & _ & _ & Hfail & Hframe).
  destruct (Hfail _ eq_refl) as (Hvi & Herr & _).
  split; [exact Hvi|]. split; [exact Herr|]. apply Hframe.
Defined.

(* ===================================================================== *)
(** * While a job is tracked                                              *)
(* ===================================================================== *)

Section Watching.

Variable options : UseExtractOptions.
Variables (t : positive) (ms : Z) (jobId : string).
Variable storage : gmap string string.
Hypothesis jobId_nonempty : jobId ≠ "".

Lemma watching_step s input :
  watching t ms jobId storage s → polls_on t input = true →
  watching t ms jobId storage (step options s input).
Proof.
  intros (Hloop & Hp & Hl & Hst) Hin.
  split; [apply (looping_step options t ms jobId jobId_nonempty s input Hloop Hin)|].
  destruct Hloop as (Ht & Href & Hj & Haw).
  destruct input as [| | | | |t'|i settled|]; try discriminate Hin.
  - cbn in Hin. apply bool_decide_eq_true in Hin. subst t'.
    unfold step. rewrite Ht.
    rewrite (interval_handler_fetches s jobId Hj jobId_nonempty). auto.
  - destruct (awaiting s !! i) as [a|] eqn:Hi;
      [|unfold step; rewrite Hi; auto].
    assert (Ha : starts_no_loop a = true).
    { rewrite Forall_lookup in Haw. exact (Haw i a Hi). }
    destruct a as [polled| | |]; try discriminate Ha;
      [|unfold step; rewrite Hi; auto].
    rewrite (step_settle_poll options s i polled) by exact Hi.
    destruct settled as [[j|]|err]; try discriminate Hin.
    + cbn in Hin. apply negb_true_iff in Hin.
      rewrite (pollJob_settled_progress options _ j Hin).
      destruct s. cbn in *. auto.
    + rewrite pollJob_settled_rejected. destruct s. cbn in *. auto.
Qed.

Lemma watching_run inputs : ∀ s,
  watching t ms jobId storage s →
  Forall (λ input, polls_on t input = true) inputs →
  watching t ms jobId storage (run options s inputs).
Proof.
  induction inputs as [|input inputs IH]; intros s Hs Hall; [exact Hs|].
  apply Forall_cons in Hall as [Hin Hall]. rewrite run_cons.
  apply IH; [apply watching_step; assumption|exact Hall].
Qed.

End Watching.

(** A submission the service accepts leaves the hook watching the job. *)
Lemma accepted_watching options s url format quality newJob :
  Forall (λ a, starts_no_loop a = true) (awaiting s) →
  watching (nextTimer s) (interval options) (JobResponse.job_id newJob)
    (<[STORAGE_KEY := JobResponse.job_id newJob]> (localStorage s))
    (run options s
       [Extract url format quality;
        SettleJob (length (awaiting s)) (Fulfilled (Some newJob))]).
Proof.
  intros Haw. change (run options s [?a; ?b])
    with (step options (step options s a) b).
  rewrite extract_accepted_state. unfold watching, looping. cbn.
  repeat split.
  - apply lookup_insert_eq.
  - apply Forall_app. split; [exact Haw|]. repeat constructor.
Qed.

(** X6. From the call of [extract] on, through the service accepting the
    job and however its interval then fires and its polls fail or report
    progress, the hook returns [isProcessing] true, and the status it
    returns is that of the last poll answered; the first poll that
    reports a terminal status turns [isProcessing] false. *)
Theorem isProcessing_while_tracked options s url format quality newJob inputs :
  JobResponse.job_id newJob ≠ "" →
  Forall (λ a, starts_no_loop a = true) (awaiting s) →
  Forall (λ input, polls_on (nextTimer s) input = true) inputs →
  let s1 := step options s (Extract url format quality) in
  let s2 := step options s1
              (SettleJob (length (awaiting s)) (Fulfilled (Some newJob))) in
  let s3 := run options s2 inputs in
  isProcessing s1 = true
  ∧ (isProcessing s2 = true ∧ Observe.status s2 = Some (JobResponse.status newJob))
  ∧ isProcessing s3 = true
  ∧ (∀ i polled j, awaiting s3 !! i = Some (AwaitPoll polled) →
       let s4 := step options s3 (SettleJob i (Fulfilled (Some j))) in
       Observe.status s4 = Some (JobResponse.status j)
       ∧ Observe.progress s4 = JobResponse.progress j
       ∧ isProcessing s4 = negb (terminal (JobResponse.status j))).
Proof.
  intros Hne Haw Hall s1 s2 s3.
  pose proof (accepted_watching options s url format quality newJob Haw) as Hw.
  change (run options s [?a; ?b]) with s2 in Hw.
  pose proof (watching_run options _ _ _ _ Hne inputs s2 Hw Hall) as Hw3.
  fold s3 in Hw3.
  split; [subst s1; destruct s as [? ? ? ? ? [?|] ? ? ? ? ? ?]; reflexivity|].
  split.
  { subst s2 s1. rewrite extract_accepted_state. split; reflexivity. }
  destruct Hw3 as (Hloop & Hp & Hl & _).
  split; [unfold isProcessing; rewrite Hp; apply orb_true_r|].
  intros i polled j Hi. cbn zeta.
  rewrite (step_settle_poll options s3 i polled) by exact Hi.
  destruct (terminal (JobResponse.status j)) eqn:Hterm.
  - rewrite (pollJob_settled_terminal options _ j Hterm).
    destruct s3. cbn in *. subst. repeat split.
  - rewrite (pollJob_settled_progress options _ j Hterm).
    destruct s3. cbn in *. subst. repeat split.
Qed.

(** The worked job: tracked from the submission to the poll that
    reports "completed". *)
Lemma isProcessing_while_tracked_witness :
  let s1 := step Scenario.watched (init ∅)
              (Extract "https://youtube.com/watch?v=XYZ" mp3 q192) in
  let s2 := step Scenario.watched s1
              (SettleJob 0 (Fulfilled (Some Scenario.abc_pending))) in
  let s3 := run Scenario.watched s2
              [SettleJob 0 (Fulfilled (Some Scenario.abc_processing));
               Tick 1%positive] in
  isProcessing s3 = true
  ∧ isProcessing (step Scenario.watched s3
                    (SettleJob 0 (Fulfilled (Some Scenario.abc_completed)))) = false.
Proof.
  destruct (isProcessing_while_tracked Scenario.watched (init ∅)
              "https://youtube.com/watch?v=XYZ" mp3 q192 Scenario.abc_pending
              [SettleJob 0 (Fulfilled (Some Scenario.abc_processing));
               Tick 1%positive])
    as (_ & _ & Hon & Hoff).
  - discriminate.
  - constructor.
  - repeat constructor.
  - split; [exact Hon|].
    apply (Hoff 0%nat "abc" Scenario.abc_completed).
    vm_compute; reflexivity.
Defined.

(** X7. The identifier of an accepted job outlives the page: after any
    stretch of polling, when the component unmounts its interval is
    cancelled, and the mount effect of the next page load over the same
    storage asks for the status of that very job. *)
Theorem resumes_after_reload options s url format quality newJob inputs :
  JobResponse.job_id newJob ≠ "" →
  Forall (λ a, starts_no_loop a = true) (awaiting s) →
  Forall (λ input, polls_on (nextTimer s) input = true) inputs →
  let s3 := run options
              (run options s
                 [Extract url format quality;
                  SettleJob (length (awaiting s)) (Fulfilled (Some newJob))])
              inputs in
  let s4 := step options s3 Unmount in
  let next := step options (init (localStorage s4)) Mount in
  timers s4 !! nextTimer s = None
  ∧ step options s4 (Tick (nextTimer s)) = s4
  ∧ localStorage s4 !! STORAGE_KEY = Some (JobResponse.job_id newJob)
  ∧ trace next = [GetJob (JobResponse.job_id newJob)]
  ∧ awaiting next = [AwaitResume (JobResponse.job_id newJob)].
Proof.
  intros Hne Haw Hall s3 s4 next.
  pose proof (accepted_watching options s url format quality newJob Haw) as Hw.
  pose proof (watching_run options _ _ _ _ Hne inputs _ Hw Hall) as Hw3.
  fold s3 in Hw3. destruct Hw3 as ((Ht & Href & _ & _) & _ & _ & Hst).
  assert (Hs4 : timers s4 = delete (nextTimer s) (timers s3)
                ∧ localStorage s4 = localStorage s3).
  { subst s4. destruct s3. cbn in *. subst. split; reflexivity. }
  destruct Hs4 as [Htm4 Hst4].
  assert (Hgone : timers s4 !! nextTimer s = None)
    by (rewrite Htm4; apply lookup_delete_eq).
  split; [exact Hgone|].
  split; [unfold step; rewrite Hgone; reflexivity|].
  assert (Hk : localStorage s4 !! STORAGE_KEY = Some (JobResponse.job_id newJob))
    by (rewrite Hst4, Hst; apply lookup_insert_eq).
  split; [exact Hk|].
  subst next. change (step options ?x Mount) with (exec mount x).
  rewrite (mount_state (init (localStorage s4)) _ Hk Hne).
  split; reflexivity.
Qed.

(** Job "abc" is polled twice before the page is left. *)
Lemma resumes_after_reload_witness :
  let s3 := run Scenario.watched
              (run Scenario.watched (init ∅)
                 [Extract "https://youtube.com/watch?v=XYZ" mp3 q192;
                  SettleJob 0 (Fulfilled (Some Scenario.abc_pending))])
              [SettleJob 0 (Fulfilled (Some Scenario.abc_processing));
               Tick 1%positive] in
  let s4 := step Scenario.watched s3 Unmount in
  trace (step Scenario.watched (init (localStorage s4)) Mount) = [GetJob "abc"].
Proof.
  destruct (resumes_after_reload Scenario.watched (init ∅)
              "https://youtube.com/watch?v=XYZ" mp3 q192 Scenario.abc_pending
              [SettleJob 0 (Fulfilled (Some Scenario.abc_processing));
               Tick 1%positive])
    as (_ & _ & _ & Hnext & _).
  - discriminate.
  - constructor.
  - repeat constructor.
  - exact Hnext.
Defined.

(* ===================================================================== *)
(** * The earlier hook and the storage                                    *)
(* ===================================================================== *)

Lemma legacy_step_storage options s input :
  localStorage (LegacyRun.step options s input) = localStorage s.
Proof.
  destruct s as [? ? ? ? ? ref jid ? tm ? aw ?].
  destruct input as [| |url|url format quality| |t|i settled|i settled];
    unfold LegacyRun.step; cbn [timers awaiting].
  - reflexivity.
  - destruct ref; reflexivity.
  - reflexivity.
  - destruct ref; reflexivity.
  - destruct ref; reflexivity.
  - destruct (tm !! t); [|reflexivity].
    destruct jid as [current|]; hook_unfold; [|reflexivity].
    destruct (truthy_str (Some current)); reflexivity.
  - destruct (aw !! i) as [[polled|saved| |]|]; try reflexivity;
      unfold LegacyRun.resume_awaiting.
    + destruct settled as [[j|]|err]; hook_unfold; try reflexivity.
      destruct (JobResponse.status j), ref, options as [? [|] [|]]; reflexivity.
    + destruct settled as [[j|]|err], options as [? ? [|]]; reflexivity.
  - destruct (aw !! i) as [[polled|saved| |]|]; try reflexivity.
    destruct settled; reflexivity.
Qed.

(** X8. The earlier hook never writes to [localStorage], whatever it is
    put through, and has nothing to resume from: a job it accepted is
    not stored, so the later hook's mount effect over the storage it
    leaves does what it would have done over the storage it found. *)
Theorem legacy_keeps_storage options inputs : ∀ s,
  localStorage (LegacyRun.run options s inputs) = localStorage s
  ∧ step options (init (localStorage (LegacyRun.run options s inputs))) Mount
    = step options (init (localStorage s)) Mount.
Proof.
  assert (H : ∀ s, localStorage (LegacyRun.run options s inputs) = localStorage s).
  { induction inputs as [|input inputs IH]; intros s; [reflexivity|].
    change (LegacyRun.run options s (input :: inputs))
      with (LegacyRun.run options (LegacyRun.step options s input) inputs).
    rewrite IH. apply legacy_step_storage. }
  intros s. rewrite H. split; reflexivity.
Qed.

(* ===================================================================== *)
(** * From the service's refusal to the screen                            *)
(* ===================================================================== *)

(** X9. When the service refuses a request with a body whose [detail] is
    a non-empty string, [request] rejects with an error, and the hook
    shows that very text: a refused submission and a refused lookup put
    it in [error] (the submission also hands it to [onError]), while a
    refused poll only logs it and leaves [error] as it was. *)
Theorem refusal_reaches_error options s response body d url format quality :
  Api.ok response = false →
  Api.json response = Fulfilled body →
  detail_of body = inr (Some (JStr d)) →
  d ≠ "" →
  onError options = true →
  Api.request (Api.Responded response) = Rejected (ThrowError (new_Error d))
  ∧ (let s1 := step options s (Extract url format quality) in
     let s2 := step options s1
                 (SettleJob (length (awaiting s))
                    (Rejected (ThrowError (new_Error d)))) in
     error s2 = Some d ∧ since s1 s2 = [OnError (new_Error d)])
  ∧ (let s1 := step options s (FetchInfo url) in
     let s2 := step options s1
                 (SettleInfo (length (awaiting s))
                    (Rejected (ThrowError (new_Error d)))) in
     error s2 = Some d ∧ since s1 s2 = [])
  ∧ (∀ i polled, awaiting s !! i = Some (AwaitPoll polled) →
       let s2 := step options s
                   (SettleJob i (Rejected (ThrowError (new_Error d)))) in
       error s2 = error s
       ∧ since s s2 = [ConsoleError (ThrowError (new_Error d))]).
Proof.
  intros Hok Hj Hd Hne He.
  split.
  { unfold Api.request, Api.json_or_unknown. rewrite Hok, Hj, Hd. cbn [negb].
    rewrite (error_of_or_string d _ Hne). reflexivity. }
  split; [|split].
  - cbn zeta. rewrite extract_rejected_state.
    change (step options s (Extract url format quality))
      with (exec (extract url format quality) s).
    rewrite extract_state, He. split; [reflexivity|].
    apply since_app. reflexivity.
  - cbn zeta.
    assert (Hs1 : step options s (FetchInfo url) =
      {| isLoading := true; isPolling := isPolling s; job := job s;
         videoInfo := None; error := None; pollingRef := pollingRef s;
         jobIdRef := jobIdRef s; localStorage := localStorage s;
         timers := timers s; nextTimer := nextTimer s;
         awaiting := awaiting s ++ [AwaitInfo];
         trace := trace s ++ [GetVideoInfo url] |}) by (destruct s; reflexivity).
    rewrite Hs1.
    rewrite (step_settle_info options _ (length (awaiting s)))
      by apply lookup_last_pending.
    destruct s. hook_unfold. cbn. split; [reflexivity|].
    apply since_app. cbn. rewrite app_nil_r. reflexivity.
  - intros i polled Hi. cbn zeta.
    rewrite (step_settle_poll options s i polled) by exact Hi.
    rewrite pollJob_settled_rejected. destruct s. cbn.
    split; [reflexivity|]. apply since_app. reflexivity.
Qed.

(** The service answers a submission with 400 and a reason. *)
Lemma refusal_reaches_error_witness :
  let s1 := step Scenario.watched (init ∅) (Extract "https://example.com/v" mp3 q192) in
  let s2 := step Scenario.watched s1
              (SettleJob 0 (Rejected (ThrowError (new_Error "URL no soportada")))) in
  error s2 = Some "URL no soportada"
  ∧ since s1 s2 = [OnError (new_Error "URL no soportada")].
Proof.
  destruct (refusal_reaches_error Scenario.watched (init ∅)
              (Scenario.refused 400 (JObj [("detail", JStr "URL no soportada")]))
              (JObj [("detail", JStr "URL no soportada")]) "URL no soportada"
              "https://example.com/v" mp3 q192)
    as (_ & Hsubmit & _); try reflexivity; [discriminate|exact Hsubmit].
Defined.

(* ===================================================================== *)
(** * The other calls of the API client                                   *)
(* ===================================================================== *)

Import Calls.

Lemma not_abort_error o fallback :
  String.eqb (name (error_of_or o fallback)) "AbortError" = false.
Proof. reflexivity. Qed.

Lemma detail_of_throws v e : detail_of v = inl e → e = TypeError_null "detail".
Proof. destruct v; intros [= <-]. reflexivity. Qed.

(** X10. Both uploads settle as [request] does on the same response or
    transport failure, with one exception: the upload with a time limit
    turns a rejection named [AbortError] into its own "too slow" error.
    On every path of that upload the timer is set once, first, and
    cleared before the promise settles, so a body that is slow to
    arrive is never reported as a time-out. *)
Theorem uploadVideo_settles fetched :
  uploadVideo fetched = Api.request fetched
  ∧ (∀ e, fetched = Api.NetworkFailure e → name e = "AbortError" →
       (uploadVideo_limited fetched).2
       = Rejected (ThrowError (new_Error too_slow)))
  ∧ ((∀ e, fetched = Api.NetworkFailure e → name e ≠ "AbortError") →
       (uploadVideo_limited fetched).2 = Api.request fetched)
  ∧ (∃ rest, (uploadVideo_limited fetched).1 = SetTimeout 900000 :: rest
       ∧ ClearTimeout ∈ rest
       ∧ SetTimeout 900000 ∉ rest).
Proof.
  split; [reflexivity|].
  destruct fetched as [e|response].
  - split; [|split].
    + intros e' [= <-] Hname. cbn. rewrite Hname. reflexivity.
    + intros Hne. specialize (Hne e eq_refl). cbn.
      destruct (String.eqb_spec (name e) "AbortError"); [contradiction|reflexivity].
    + exists [ClearTimeout]. split; [reflexivity|]. split.
      * apply list_elem_of_here.
      * intros H. apply list_elem_of_singleton in H. discriminate.
  - split; [discriminate|]. split.
    + intros _. unfold uploadVideo_limited, Api.request.
      destruct (Api.ok response); cbn [negb]; [reflexivity|].
      destruct (detail_of (Api.json_or_unknown response))
        as [type_error|detail] eqn:Hd.
      * rewrite (detail_of_throws _ _ Hd). reflexivity.
      * unfold uploadVideo_catch. rewrite not_abort_error. reflexivity.
    + unfold uploadVideo_limited.
      destruct (Api.ok response); cbn [negb].
      * exists [ClearTimeout]. split; [reflexivity|]. split.
        -- apply list_elem_of_here.
        -- intros H. apply list_elem_of_singleton in H. discriminate.
      * exists [ClearTimeout; ClearTimeout]. split; [reflexivity|]. split.
        -- apply list_elem_of_here.
        -- intros H. repeat (apply elem_of_cons in H as [H|H]; [discriminate|]).
           apply elem_of_nil in H. exact H.
Qed.

(** The timer fires before the service answers. *)
Lemma uploadVideo_settles_witness :
  (uploadVideo_limited
     (Api.NetworkFailure
        {| name := "AbortError"; message := "The user aborted a request.";
           Js.status := None |})).2
  = Rejected (ThrowError (new_Error too_slow)).
Proof.
  destruct (uploadVideo_settles
              (Api.NetworkFailure
                 {| name := "AbortError"; message := "The user aborted a request.";
                    Js.status := None |}))
    as (_ & Habort & _).
  apply (Habort _ eq_refl). reflexivity.
Defined.

(** X11. The two clients disagree on deleting a job. The earlier one
    never reads the body: any 2xx response resolves, any other rejects
    with "Error al eliminar job" whatever [detail] says. The later one
    goes through [request]: a 2xx response whose body is not JSON, an
    empty one for instance, makes it reject although the job is
    deleted. *)
Theorem deleteJob_clients response :
  (Api.ok response = true →
     deleteJob_earlier response = Fulfilled ()
     ∧ ∀ err, Api.json response = Rejected err →
         deleteJob (Api.Responded response) = Rejected err)
  ∧ (Api.ok response = false →
     deleteJob_earlier response
     = Rejected (ThrowError
         (Api.new_ApiError (Api.status response) "Error al eliminar job"))
     ∧ ∀ body d, Api.json response = Fulfilled body →
         detail_of body = inr (Some (JStr d)) → d ≠ "" →
         deleteJob (Api.Responded response) = Rejected (ThrowError (new_Error d))).
Proof.
  unfold deleteJob_earlier, deleteJob, Api.request, Api.json_or_unknown.
  split; intros Hok; rewrite Hok; cbn [negb].
  - split; [reflexivity|]. intros err Hj. exact Hj.
  - split; [reflexivity|]. intros body d Hj Hd Hne. rewrite Hj, Hd.
    rewrite (error_of_or_string d _ Hne). reflexivity.
Qed.

(** A 204 with no body. *)
Lemma deleteJob_clients_witness :
  let response := {| Api.ok := true; Api.status := 204;
                     Api.json := Rejected (ThrowError
                       {| name := "SyntaxError";
                          message := "Unexpected end of JSON input";
                          Js.status := None |}) |} in
  deleteJob_earlier response = Fulfilled ()
  ∧ deleteJob (Api.Responded response)
    = Rejected (ThrowError {| name := "SyntaxError";
                              message := "Unexpected end of JSON input";
                              Js.status := None |}).
Proof.
  destruct (deleteJob_clients
              {| Api.ok := true; Api.status := 204;
                 Api.json := Rejected (ThrowError
                   {| name := "SyntaxError";
                      message := "Unexpected end of JSON input";
                      Js.status := None |}) |}) as [Hok _].
  destruct (Hok eq_refl) as [Hold Hnew].
  split; [exact Hold|]. apply Hnew. reflexivity.
Defined.

(** ** [encodeURIComponent] *)

Lemma unreserved_not_percent a : unreserved a = true → a ≠ "%"%char.
Proof. intros H ->. discriminate H. Qed.

Lemma unescape_percent a rest :
  unescape (percent a +:+ rest) = String a <$> unescape rest.
Proof.
  destruct a as [[] [] [] [] [] [] [] []];
    change (unescape (percent ?c +:+ rest))
      with (match unescape rest with
            | Some r => Some (String c r)
            | None => None
            end);
    destruct (unescape rest); reflexivity.
Qed.

Lemma unescape_plain a rest :
  a ≠ "%"%char → unescape (String a rest) = String a <$> unescape rest.
Proof.
  intros Hne. destruct a as [[] [] [] [] [] [] [] []]; try reflexivity.
  contradiction Hne. reflexivity.
Qed.

(** X12. [encodeURIComponent] loses nothing: reading its escapes back
    gives the string it was applied to, so two different URLs never
    lead [getVideoInfo] to the same endpoint. *)
Theorem encodeURIComponent_unescape url :
  unescape (encodeURIComponent url) = Some url
  ∧ ∀ other, getVideoInfo_endpoint url = getVideoInfo_endpoint other →
      url = other.
Proof.
  assert (Hround : ∀ s, unescape (encodeURIComponent s) = Some s).
  { induction s as [|a rest IH]; [reflexivity|].
    cbn [encodeURIComponent]. destruct (unreserved a) eqn:Hu.
    - change (String a "" +:+ encodeURIComponent rest)
        with (String a (encodeURIComponent rest)).
      rewrite (unescape_plain a _ (unreserved_not_percent a Hu)).
      rewrite IH. reflexivity.
    - rewrite unescape_percent, IH. reflexivity. }
  split; [apply Hround|].
  intros other Heq. unfold getVideoInfo_endpoint in Heq.
  simpl in Heq. injection Heq as Heq.
  change (encodeURIComponent url = encodeURIComponent other) in Heq.
  pose proof (Hround url) as H. rewrite Heq, Hround in H.
  injection H as H. symmetry. exact H.
Qed.

Lemma chars_app s1 s2 :
  String.list_ascii_of_string (s1 +:+ s2)
  = String.list_ascii_of_string s1 ++ String.list_ascii_of_string s2.
Proof.
  induction s1 as [|a s1 IH]; [reflexivity|].
  change (a :: String.list_ascii_of_string (s1 +:+ s2)
          = a :: (String.list_ascii_of_string s1 ++ String.list_ascii_of_string s2)).
  rewrite IH. reflexivity.
Qed.

Lemma hex_digit_unreserved (a : ascii) :
  unreserved (hex_digit (N_of_ascii a / 16)) = true
  ∧ unreserved (hex_digit (N_of_ascii a mod 16)) = true.
Proof. destruct a as [[] [] [] [] [] [] [] []]; split; reflexivity. Qed.

(** X13. Whatever the URL, the value [encodeURIComponent] gives for the
    query consists of unreserved characters and percent signs alone: no
    [&], [=], [#], [?], [/], [+] or blank of the URL reaches the query
    of [getVideoInfo] as such. *)
Theorem encodeURIComponent_safe url :
  Forall (λ a, unreserved a = true ∨ a = "%"%char)
    (String.list_ascii_of_string (encodeURIComponent url))
  ∧ ∀ a, a ∈ ["&"; "="; "#"; "?"; "/"; "+"; " "]%char →
      a ∉ String.list_ascii_of_string (encodeURIComponent url).
Proof.
  assert (Hall : Forall (λ a, unreserved a = true ∨ a = "%"%char)
                   (String.list_ascii_of_string (encodeURIComponent url))).
  { induction url as [|a rest IH]; [constructor|].
    cbn [encodeURIComponent]. rewrite chars_app. apply Forall_app. split; [|exact IH].
    destruct (unreserved a) eqn:Hu.
    - constructor; [left; exact Hu|constructor].
    - destruct (hex_digit_unreserved a) as [Hh Hl].
      change (String.list_ascii_of_string (percent a))
        with ["%"%char; hex_digit (N_of_ascii a / 16);
              hex_digit (N_of_ascii a mod 16)].
      constructor; [right; reflexivity|].
      constructor; [left; exact Hh|].
      constructor; [left; exact Hl|constructor]. }
  split; [exact Hall|].
  intros a Ha Hin. rewrite Forall_forall in Hall.
  destruct (Hall a Hin) as [Hu| ->].
  - repeat (apply elem_of_cons in Ha as [->|Ha]; [discriminate Hu|]).
    apply elem_of_nil in Ha. exact Ha.
  - repeat (apply elem_of_cons in Ha as [Ha|Ha]; [discriminate Ha|]).
    apply elem_of_nil in Ha. exact Ha.
Qed.

(** A watch URL with a time stamp. *)
Lemma encodeURIComponent_safe_witness :
  encodeURIComponent "https://youtube.com/watch?v=XYZ&t=1"
  = "https%3A%2F%2Fyoutube.com%2Fwatch%3Fv%3DXYZ%26t%3D1"
  ∧ "&"%char ∉ String.list_ascii_of_string
                 (encodeURIComponent "https://youtube.com/watch?v=XYZ&t=1").
Proof.
  split; [reflexivity|].
  apply (encodeURIComponent_safe "https://youtube.com/watch?v=XYZ&t=1").
  apply list_elem_of_here.
Defined.

(** The escapes of a watch URL read back. *)
Lemma encodeURIComponent_unescape_witness :
  unescape (encodeURIComponent "https://youtu.be/XYZ?t=1") = Some "https://youtu.be/XYZ?t=1"
  ∧ "https://youtu.be/XYZ?t=1" = "https://youtu.be/XYZ?t=1".
Proof.
  destruct (encodeURIComponent_unescape "https://youtu.be/XYZ?t=1") as [Hback Hinj].
  split; [exact Hback|]. apply Hinj. reflexivity.
Defined.

(* ===================================================================== *)
(** * Uploading a file                                                    *)
(* ===================================================================== *)

Lemma progress_ticks k : ∀ u,
  (0 < App.progressIntervals u)%nat →
  App.uploadProgress u ≤ 90 →
  let u' := App.run u (replicate k App.ProgressTick) in
  App.uploadProgress u' = Z.min (App.uploadProgress u + 10 * Z.of_nat k) 90
  ∧ App.progressIntervals u' = App.progressIntervals u
  ∧ App.isUploading u' = App.isUploading u
  ∧ App.pendingUploads u' = App.pendingUploads u.
Proof.
  induction k as [|k IH]; intros u Hlive Hle.
  - cbn. repeat split. lia.
  - change (App.run u (replicate (S k) App.ProgressTick))
      with (App.run (App.step u App.ProgressTick) (replicate k App.ProgressTick)).
    assert (Hstep : App.step u App.ProgressTick = App.progress_handler u).
    { unfold App.step. destruct (App.progressIntervals u); [lia|reflexivity]. }
    rewrite Hstep.
    destruct (IH (App.progress_handler u)) as (Hp & Hi & Hu & Hn).
    + exact Hlive.
    + cbn. lia.
    + cbn zeta. rewrite Hp, Hi, Hu, Hn. cbn. repeat split. lia.
Qed.

(** X14. While an upload is pending, the progress [App] shows starts at
    10 and is [min(10 + 10 k, 90)] after the interval has fired [k]
    times: it never goes down, never passes 90 before the service
    answers, and is 90 from the eighth firing on. Any answer, success or
    not, sets it to 100 and stops the interval. *)
Theorem upload_progress_bounded u k :
  let u1 := App.step u App.HandleUpload in
  let u2 := App.run u1 (replicate k App.ProgressTick) in
  App.uploadProgress u1 = 10
  ∧ App.uploadProgress u2 = Z.min (10 + 10 * Z.of_nat k) 90
  ∧ 10 ≤ App.uploadProgress u2 ≤ 90
  ∧ ((8 ≤ k)%nat → App.uploadProgress u2 = 90)
  ∧ App.isUploading u2 = true
  ∧ (∀ result,
       let u3 := App.step u2 (App.UploadSettled (Fulfilled result)) in
       App.uploadProgress u3 = 100
       ∧ App.progressIntervals u3 = App.progressIntervals u
       ∧ App.isUploading u3 = false).
Proof.
  intros u1 u2.
  assert (H1 : App.uploadProgress u1 = 10) by reflexivity.
  assert (Hi1 : App.progressIntervals u1 = S (App.progressIntervals u)) by reflexivity.
  assert (Hu1 : App.isUploading u1 = true) by reflexivity.
  assert (Hn1 : App.pendingUploads u1 = S (App.pendingUploads u)) by reflexivity.
  destruct (progress_ticks k u1) as (Hp & Hi & Hu & Hn); [lia|lia|].
  fold u2 in Hp, Hi, Hu, Hn. rewrite H1 in Hp. rewrite Hi1 in Hi.
  rewrite Hu1 in Hu. rewrite Hn1 in Hn.
  split; [exact H1|]. split; [exact Hp|]. split; [lia|]. split; [lia|].
  split; [exact Hu|].
  intros result. unfold App.step. rewrite Hn.
  destruct result as [result|]; cbn [App.handleUpload_settled].
  - destruct (String.eqb (App.status result) "success"); cbn; rewrite Hi;
      repeat split.
  - cbn. rewrite Hi. repeat split.
Qed.

(** Ten firings of the interval before the answer. *)
Lemma upload_progress_bounded_witness :
  App.uploadProgress
    (App.run (App.step App.start App.HandleUpload) (replicate 10 App.ProgressTick))
  = 90.
Proof.
  destruct (upload_progress_bounded App.start 10) as (_ & _ & _ & Hfull & _).
  apply Hfull. lia.
Defined.

(** X15. When the upload request is rejected, [handleUpload] shows the
    error's message and stops reporting an upload, but it never clears
    the interval that fakes the progress: one more interval is live than
    before the upload, and it goes on raising the progress, also after
    [handleReset] has put the progress back to 0. *)
Theorem upload_failure_keeps_interval s u err :
  let u1 := App.step u App.HandleUpload in
  let u2 := App.step u1 (App.UploadSettled (Rejected err)) in
  let u3 := (App.handleReset (s, u2)).2 in
  App.uploadError u2 = Some (message_or err "Error desconocido")
  ∧ App.isUploading u2 = false
  ∧ App.progressIntervals u2 = S (App.progressIntervals u)
  ∧ App.uploadProgress u3 = 0
  ∧ App.uploadError u3 = None
  ∧ App.progressIntervals u3 = S (App.progressIntervals u)
  ∧ ∀ k, App.uploadProgress (App.run u3 (replicate k App.ProgressTick))
         = Z.min (10 * Z.of_nat k) 90.
Proof.
  cbn zeta. repeat (split; [reflexivity|]).
  intros k.
  destruct (progress_ticks k
              (App.handleReset
                 (s, App.step (App.step u App.HandleUpload)
                       (App.UploadSettled (Rejected err)))).2) as (Hp & _).
  { cbn. lia. }
  { cbn. lia. }
  cbn zeta in Hp. rewrite Hp. reflexivity.
Qed.

(** X16. [request] and [handleResponse] resolve exactly when the
    response is [ok] and its body parses, and then with the parsed body
    itself; a response that is not [ok] never resolves, whatever its
    body holds. *)
Theorem resolves_only_when_ok fetched v :
  (Api.request fetched = Fulfilled v
   ↔ ∃ response, fetched = Api.Responded response
       ∧ Api.ok response = true ∧ Api.json response = Fulfilled v)
  ∧ (∀ response,
       Api.handleResponse response = Fulfilled v
       ↔ Api.ok response = true ∧ Api.json response = Fulfilled v).
Proof.
  split.
  - split.
    + destruct fetched as [e|response]; [discriminate|].
      unfold Api.request. destruct (Api.ok response) eqn:Hok; cbn [negb].
      * intros Hj. exists response. auto.
      * destruct (detail_of (Api.json_or_unknown response)); discriminate.
    + intros (response & -> & Hok & Hj). unfold Api.request.
      rewrite Hok. exact Hj.
  - intros response. unfold Api.handleResponse.
    destruct (Api.ok response) eqn:Hok; cbn [negb].
    + split; [auto|]. intros [_ Hj]. exact Hj.
    + split; [|intros [H _]; discriminate H].
      destruct (detail_of (Api.json_or_unknown response)); discriminate.
Qed.

(** A job as the service sends it, with status 200. *)
Lemma resolves_only_when_ok_witness :
  Api.request (Api.Responded
    {| Api.ok := true; Api.status := 200;
       Api.json := Fulfilled (JObj [("job_id", JStr "abc")]) |})
  = Fulfilled (JObj [("job_id", JStr "abc")]).
Proof.
  destruct (resolves_only_when_ok
              (Api.Responded
                 {| Api.ok := true; Api.status := 200;
                    Api.json := Fulfilled (JObj [("job_id", JStr "abc")]) |})
              (JObj [("job_id", JStr "abc")])) as [[_ H] _].
  apply H. eexists. split; [reflexivity|]. split; reflexivity.
Defined.
